(** * Chat-session sidebar and mail helper: a shallow embedding

    Source files embedded here:
    - [src/app/component/sidebar.tsx]: the [Sidebar] component, that is its
      React state ([sessions], [loading], [error], [creating]), the
      [cancelRef] holding the cancel token of the last session fetch, and
      the handlers [fetchSessions], [handleSelect], [handleCreate],
      [handleDownload] and the auto-title effect;
    - [src/lib/mail.ts]: the [transporter] options and [sendEmail].

    The handlers are [async] functions.  Each is cut at its [await]s: the
    part before the [await] is a function on the [World], and the part after
    it is a continuation ([Kont]) stored with the pending request until the
    network settles it.  JavaScript runs every such part to completion, so a
    part is one atomic step. *)

From Stdlib Require Import ZArith String Ascii.
From stdpp Require Import base gmap strings list.

Open Scope string_scope.
Open Scope Z_scope.

(** ** JavaScript values *)

(** [ToBoolean]: the truthiness test behind [!x], [x || y] and [if (x)]. *)
Class ToBoolean (A : Type) := to_boolean : A → bool.

(** A string is falsy exactly when it is empty. *)
#[global] Instance string_to_boolean : ToBoolean string :=
  λ s, match s with EmptyString => false | String _ _ => true end.

(** An integer is falsy exactly when it is zero. *)
#[global] Instance Z_to_boolean : ToBoolean Z := λ n, negb (n =? 0).

(** [None] stands for [null] and [undefined], both falsy. *)
#[global] Instance option_to_boolean `{ToBoolean A} : ToBoolean (option A) :=
  λ o, match o with Some a => to_boolean a | None => false end.

(** A relative index of [String.prototype.slice] against a length [len]:
    a negative index counts from the end, and the result stays in [0, len]. *)
Definition slice_index (len i : Z) : Z :=
  if i <? 0 then Z.max (len + i) 0 else Z.min i len.

(** [s.slice(b, e)], on strings written with 8-bit characters: one element
    of a [string] stands for one code unit, which covers the strings whose
    code units are all below 256.  [Utf16.slice] is the same function on
    UTF-16 code units proper. *)
Definition slice (b e : Z) (s : string) : string :=
  let len := Z.of_nat (String.length s) in
  let from := slice_index len b in
  let to := slice_index len e in
  String.substring (Z.to_nat from) (Z.to_nat (Z.max (to - from) 0)) s.

(** The first [n] characters of [s], read off its list of characters. *)
Definition first_chars (n : nat) (s : string) : string :=
  string_of_list_ascii (take n (list_ascii_of_string s)).

(** ** Data model *)

(** [interface ChatSession]. *)
Record ChatSession := {
  session_id : Z;
  title : option string;
  created_at : option string;
}.

(** An element of the callback's message list, [{ role, text }]. *)
Record Message := { role : string; text : string }.

(** A record of [GET /chat/messages/{id}], [{ role, content }]. *)
Record RemoteMessage := { remote_role : string; content : string }.

(** The download formats, ['pdf' | 'docx' | 'csv']. *)
Inductive Format := pdf | docx | csv.

#[global] Instance ChatSession_eq_dec : EqDecision ChatSession.
Proof. solve_decision. Defined.
#[global] Instance Message_eq_dec : EqDecision Message.
Proof. solve_decision. Defined.
#[global] Instance Format_eq_dec : EqDecision Format.
Proof. solve_decision. Defined.

(** ** The auto-title effect, lines 120-134 *)

(** [sessions.find((s) => s.session_id === currentSessionId)]. *)
Definition find_session (cur : Z) (sessions : list ChatSession)
  : option ChatSession :=
  List.find (λ s, session_id s =? cur) sessions.

(** [session.title === "New Chat" || !session.title]. *)
Definition untitled (s : ChatSession) : bool :=
  bool_decide (title s = Some "New Chat") || negb (to_boolean (title s)).

(** The guard of the effect and the title it derives: [Some newTitle] when
    the body of the inner [if] runs, [None] when the effect does nothing. *)
Definition derive_title (lastUserMessage : option string)
    (currentSessionId : option Z) (sessions : list ChatSession)
  : option (Z * string) :=
  if negb (to_boolean lastUserMessage) || negb (to_boolean currentSessionId)
  then None
  else match lastUserMessage, currentSessionId with
       | Some msg, Some cur =>
           match find_session cur sessions with
           | Some session =>
               if untitled session then Some (cur, slice 0 40 msg) else None
           | None => None
           end
       | _, _ => None
       end.

(** [{ ...s, title: newTitle }]. *)
Definition with_title (newTitle : string) (s : ChatSession) : ChatSession :=
  {| session_id := session_id s;
     title := Some newTitle;
     created_at := created_at s |}.

(** The updater given to [setSessions]:
    [prev.map((s) => s.session_id === currentSessionId ? {...s, title} : s)]. *)
Definition retitle (cur : Z) (newTitle : string) (prev : list ChatSession)
  : list ChatSession :=
  (λ s, if session_id s =? cur then with_title newTitle s else s) <$> prev.

(** ** The component and the network *)

(** The React state of the component ([expand] only drives the layout and
    is left out). *)
Record State := {
  sessions : list ChatSession;
  loading : bool;
  error : option string;
  creating : bool;
}.

(** How a request can fail: [axios.isCancel(err)] holds, or it does not. *)
Inductive Failure := Cancelled | Failed.

(** The settled promise of a request. *)
Inductive Outcome (A : Type) :=
  | Fulfilled (data : A)
  | Rejected (err : Failure).
Arguments Fulfilled {A} data.
Arguments Rejected {A} err.

(** [res.data] of [GET /chat/sessions/{userId}], as far as
    [Array.isArray] tells it apart. *)
Inductive SessionsBody :=
  | SessionArray (l : list ChatSession)
  | NotAnArray.

(** [res.data] of [GET /chat/messages/{sessionId}]: a falsy value, an array
    (an element [None] is a [null] among the records), or any other truthy
    value, which has no [map]. *)
Inductive MessagesBody :=
  | NoMessages
  | MessageArray (l : list (option RemoteMessage))
  | NotMessages.

(** [res.data?.session_id] of [POST /chat/session]; [None] when the body or
    the field is missing. *)
Abbreviation CreateBody := (option Z).

(** The binary payload of a transcript. *)
Definition Blob := list Byte.byte.

(** What the component does to the outside, in the order it does it.  A
    request carries the id [rid] under which the network later settles it.
    In the steps of the component [onSelectSession] returns normally, as
    its type [(sessionId, messages) => void] says; [handleSelect_calls] has
    the callback that throws. *)
Inductive Effect :=
  | GetSessions (rid : nat) (userId : string)
  | GetMessages (rid : nat) (sessionId : Z)
  | PostSession (rid : nat) (user_id title : string)
  | PatchTitle (rid : nat) (sessionId : Z) (newTitle : string)
  | GetDownload (rid : nat) (sessionId : Z) (format : Format)
  | OnSelectSession (sessionId : Z) (messages : list Message)
  | Alert (message : string)
  | ConsoleError (message : string)
  | SaveFile (sessionId : Z) (format : Format) (data : Blob).

(** The rest of an [async] handler, waiting on a request.  [KFetch awaiter]
    is the rest of [fetchSessions]; [awaiter] is [Some sid] when
    [handleCreate] awaits that call and goes on with [sid] afterwards. *)
Inductive Kont :=
  | KFetch (awaiter : option Z)
  | KSelect (sessionId : Z)
  | KCreate (userId : string)
  | KPatch
  | KDownload (sessionId : Z) (format : Format).

(** A request in flight.  [cancelled] is set when the cancel token given to
    the request has been cancelled; only session fetches are given one. *)
Record Pending := { kont : Kont; cancelled : bool }.

(** The component together with its environment: the React state, the
    [cancelRef] (the token source of the last session fetch, named by the
    request it was made for), the requests in flight, the next request id
    and the effects so far. *)
Record World := {
  ui : State;
  cancelRef : option nat;
  pending : gmap nat Pending;
  next_rid : nat;
  log : list Effect;
}.

(** The component as mounted, before its first effect runs. *)
Definition init : World :=
  {| ui := {| sessions := []; loading := false; error := None;
              creating := false |};
     cancelRef := None; pending := ∅; next_rid := 0%nat; log := [] |}.

(** *** State setters *)

Definition setSessions (l : list ChatSession) (s : State) : State :=
  {| sessions := l; loading := loading s; error := error s;
     creating := creating s |}.
Definition setLoading (b : bool) (s : State) : State :=
  {| sessions := sessions s; loading := b; error := error s;
     creating := creating s |}.
Definition setError (e : option string) (s : State) : State :=
  {| sessions := sessions s; loading := loading s; error := e;
     creating := creating s |}.
Definition setCreating (b : bool) (s : State) : State :=
  {| sessions := sessions s; loading := loading s; error := error s;
     creating := b |}.

Definition update (f : State → State) (w : World) : World :=
  {| ui := f (ui w); cancelRef := cancelRef w; pending := pending w;
     next_rid := next_rid w; log := log w |}.

Definition emit (e : Effect) (w : World) : World :=
  {| ui := ui w; cancelRef := cancelRef w; pending := pending w;
     next_rid := next_rid w; log := log w ++ [e] |}.

(** Sends a request: logs it under a fresh id and parks the continuation. *)
Definition request (e : nat → Effect) (k : Kont) (w : World) : World :=
  {| ui := ui w; cancelRef := cancelRef w;
     pending := <[next_rid w := {| kont := k; cancelled := false |}]> (pending w);
     next_rid := S (next_rid w); log := log w ++ [e (next_rid w)] |}.

(** Takes a settled request out of the requests in flight. *)
Definition settle (rid : nat) (w : World) : World :=
  {| ui := ui w; cancelRef := cancelRef w; pending := delete rid (pending w);
     next_rid := next_rid w; log := log w |}.

(** ** [fetchSessions], lines 93-113 *)

(** [cancelRef.current?.cancel("new-request")]: cancels the token of the
    last session fetch.  A request that has already settled is not in
    flight any more, and cancelling its token changes nothing. *)
Definition cancel_current (w : World) : World :=
  match cancelRef w with
  | Some tok =>
      {| ui := ui w; cancelRef := cancelRef w;
         pending := alter (λ p, {| kont := kont p; cancelled := true |})
                      tok (pending w);
         next_rid := next_rid w; log := log w |}
  | None => w
  end.

(** [cancelRef.current = axios.CancelToken.source()]: the new source goes
    with the request about to be sent. *)
Definition new_cancel_source (w : World) : World :=
  {| ui := ui w; cancelRef := Some (next_rid w); pending := pending w;
     next_rid := next_rid w; log := log w |}.

(** The rest of [handleCreate] after [await fetchSessions()], lines 164-170:
    the callback, and [setCreating(false)] in the [finally]. *)
Definition handleCreate_finish (sid : Z) (w : World) : World :=
  update (setCreating false) (emit (OnSelectSession sid []) w).

(** Hands control back to whoever awaited a [fetchSessions] call. *)
Definition resume_awaiter (awaiter : option Z) (w : World) : World :=
  match awaiter with
  | Some sid => handleCreate_finish sid w
  | None => w
  end.

(** [fetchSessions()] up to its [await], called with [userId] as the
    render that made the closure saw it. *)
Definition fetchSessions (awaiter : option Z) (userId : option string)
    (w : World) : World :=
  if negb (to_boolean userId) then resume_awaiter awaiter w
  else match userId with
       | Some uid =>
           let w := cancel_current w in
           let w := new_cancel_source w in
           let w := update (setLoading true) w in
           let w := update (setError None) w in
           request (λ rid, GetSessions rid uid) (KFetch awaiter) w
       | None => resume_awaiter awaiter w
       end.

(** [Array.isArray(res.data) ? res.data : []]. *)
Definition sessions_of (b : SessionsBody) : list ChatSession :=
  match b with
  | SessionArray l => l
  | NotAnArray => []
  end.

(** [fetchSessions()] from its [await] on: the end of the [try], the
    [catch] and the [finally]. *)
Definition fetchSessions_resume (o : Outcome SessionsBody) (w : World)
  : World :=
  update (setLoading false)
    match o with
    | Fulfilled b => update (setSessions (sessions_of b)) w
    | Rejected Cancelled => w
    | Rejected Failed =>
        let w := emit (ConsoleError "Error fetching sessions:") w in
        let w := update (setError (Some "Could not load sessions")) w in
        update (setSessions []) w
    end.

(** ** The auto-title effect on the component *)

(** The effect as run after a render with the given inputs: the [PATCH] is
    sent first, then the local list is updated. *)
Definition autoTitle (lastUserMessage : option string)
    (currentSessionId : option Z) (w : World) : World :=
  match derive_title lastUserMessage currentSessionId (sessions (ui w)) with
  | Some (cur, newTitle) =>
      let w := request (λ rid, PatchTitle rid cur newTitle) KPatch w in
      update (λ s, setSessions (retitle cur newTitle (sessions s)) s) w
  | None => w
  end.

(** [.catch((err) => console.error("Error updating title:", err))]. *)
Definition patch_resume (o : Outcome unit) (w : World) : World :=
  match o with
  | Fulfilled _ => w
  | Rejected _ => emit (ConsoleError "Error updating title:") w
  end.

(** ** [handleSelect], lines 137-146 *)

Definition handleSelect (sessionId : Z) (w : World) : World :=
  request (λ rid, GetMessages rid sessionId) (KSelect sessionId) w.

(** [{ role: m.role, text: m.content }]. *)
Definition to_message (m : RemoteMessage) : Message :=
  {| role := remote_role m; text := content m |}.

(** [(res.data || []).map(...)]; [None] when the expression throws a
    [TypeError]: the body has no [map], or an element is [null]. *)
Definition to_messages (b : MessagesBody) : option (list Message) :=
  match b with
  | NoMessages => Some []
  | MessageArray l => mapM (fmap to_message) l
  | NotMessages => None
  end.

(** The [catch] block of [handleSelect]. *)
Definition handleSelect_catch (sessionId : Z) (w : World) : World :=
  emit (OnSelectSession sessionId [])
    (emit (ConsoleError "Error fetching messages:") w).

Definition handleSelect_resume (sessionId : Z) (o : Outcome MessagesBody)
    (w : World) : World :=
  match o with
  | Fulfilled b =>
      match to_messages b with
      | Some messages => emit (OnSelectSession sessionId messages) w
      | None => handleSelect_catch sessionId w
      end
  | Rejected _ => handleSelect_catch sessionId w
  end.

(** ** [handleCreate], lines 149-171 *)

Definition handleCreate (userId : option string) (w : World) : World :=
  if negb (to_boolean userId) then w
  else match userId with
       | Some uid =>
           let w := update (setCreating true) w in
           request (λ rid, PostSession rid uid "New Chat") (KCreate uid) w
       | None => w
       end.

(** [handleCreate] after the [POST]: [uid] is the [userId] of the closure. *)
Definition handleCreate_resume (uid : string) (o : Outcome CreateBody)
    (w : World) : World :=
  match o with
  | Fulfilled sid =>
      if to_boolean sid
      then match sid with
           | Some sid => fetchSessions (Some sid) (Some uid) w
           | None => update (setCreating false) w
           end
      else update (setCreating false) w
  | Rejected _ =>
      update (setCreating false)
        (emit (ConsoleError "Error creating new chat session:") w)
  end.

(** ** [handleDownload], lines 59-90 *)

Definition handleDownload (currentSessionId : option Z) (format : Format)
    (w : World) : World :=
  if negb (to_boolean currentSessionId)
  then emit (Alert "Please select a chat session to download.") w
  else match currentSessionId with
       | Some sid =>
           request (λ rid, GetDownload rid sid format) (KDownload sid format) w
       | None => w
       end.

Definition handleDownload_resume (sid : Z) (format : Format)
    (o : Outcome Blob) (w : World) : World :=
  match o with
  | Fulfilled data => emit (SaveFile sid format data) w
  | Rejected _ =>
      emit (Alert "Failed to download chat history.")
        (emit (ConsoleError "Error downloading file:") w)
  end.

(** ** Events and steps *)

(** What can happen to a mounted component: a handler or effect is called,
    or the network settles a request. *)
Inductive Event :=
  | EvFetch (userId : option string)
  | EvAutoTitle (lastUserMessage : option string) (currentSessionId : option Z)
  | EvSelect (sessionId : Z)
  | EvCreate (userId : option string)
  | EvDownload (currentSessionId : option Z) (format : Format)
  | EvSessions (rid : nat) (o : Outcome SessionsBody)
  | EvMessages (rid : nat) (o : Outcome MessagesBody)
  | EvCreated (rid : nat) (o : Outcome CreateBody)
  | EvPatched (rid : nat) (o : Outcome unit)
  | EvDownloaded (rid : nat) (o : Outcome Blob).

Definition is_cancel {A} (o : Outcome A) : bool :=
  match o with
  | Rejected Cancelled => true
  | _ => false
  end.

(** One step; [None] when the event cannot happen in [w].  A session fetch
    is rejected with a cancellation exactly when its token was cancelled
    while it was in flight. *)
Definition step (e : Event) (w : World) : option World :=
  match e with
  | EvFetch userId => Some (fetchSessions None userId w)
  | EvAutoTitle msg cur => Some (autoTitle msg cur w)
  | EvSelect sid => Some (handleSelect sid w)
  | EvCreate userId => Some (handleCreate userId w)
  | EvDownload cur format => Some (handleDownload cur format w)
  | EvSessions rid o =>
      match pending w !! rid with
      | Some {| kont := KFetch awaiter; cancelled := c |} =>
          if bool_decide (is_cancel o = c)
          then Some (resume_awaiter awaiter
                       (fetchSessions_resume o (settle rid w)))
          else None
      | _ => None
      end
  | EvMessages rid o =>
      match pending w !! rid with
      | Some {| kont := KSelect sid |} =>
          Some (handleSelect_resume sid o (settle rid w))
      | _ => None
      end
  | EvCreated rid o =>
      match pending w !! rid with
      | Some {| kont := KCreate uid |} =>
          Some (handleCreate_resume uid o (settle rid w))
      | _ => None
      end
  | EvPatched rid o =>
      match pending w !! rid with
      | Some {| kont := KPatch |} => Some (patch_resume o (settle rid w))
      | _ => None
      end
  | EvDownloaded rid o =>
      match pending w !! rid with
      | Some {| kont := KDownload sid format |} =>
          Some (handleDownload_resume sid format o (settle rid w))
      | _ => None
      end
  end.

(** A run of events, in order. *)
Fixpoint run (evs : list Event) (w : World) : option World :=
  match evs with
  | [] => Some w
  | e :: evs => w' ← step e w; run evs w'
  end.

(** ** [src/lib/mail.ts] *)

Module Mail.
Section Mail.

(** JavaScript numbers with the integer literals among them, [Number] on
    strings, and the mail transport behind [transporter.sendMail]: they
    belong to the language and to nodemailer, and are taken as given. *)
Context {number Info : Type}.
Variable of_int : Z → number.
Variable Number_of_string : string → number.

(** The argument of [nodemailer.createTransport]. *)
Record TransportOptions := {
  host : option string;
  port : number;
  user : option string;
  pass : option string;
}.

(** The argument of [transporter.sendMail]. *)
Record MailOptions := {
  from : option string;
  to : string;
  subject : string;
  text : string;
  html : option string;
}.

Variable sendMail : TransportOptions → MailOptions → Info.

(** [process.env.MAIL_PORT || 587]: the variable when it is set and not
    empty, the number 587 otherwise. *)
Definition port_setting (env : gmap string string) : string + Z :=
  match env !! "MAIL_PORT" with
  | Some s => if to_boolean s then inl s else inr 587
  | None => inr 587
  end.

(** [Number(v)] for a string or a number [v]. *)
Definition Number (v : string + Z) : number :=
  match v with
  | inl s => Number_of_string s
  | inr n => of_int n
  end.

(** The options [transporter] is made with when the module is loaded
    under the environment [env]. *)
Definition transporter (env : gmap string string) : TransportOptions :=
  {| host := env !! "MAIL_HOST";
     port := Number (port_setting env);
     user := env !! "MAIL_USER";
     pass := env !! "MAIL_PASS" |}.

(** The message [sendEmail] hands to the transport. *)
Definition message (env : gmap string string) (to subject text : string)
    (html : option string) : MailOptions :=
  {| from := env !! "MAIL_FROM"; to := to; subject := subject;
     text := text; html := html |}.

(** [sendEmail(to, subject, text, html)], with the module loaded under
    [env0] and the call made under [env]. *)
Definition sendEmail (env0 env : gmap string string)
    (to subject text : string) (html : option string) : Info :=
  sendMail (transporter env0) (message env to subject text html).

End Mail.
End Mail.

(** ** Reading the effects *)

(** The session fetches among the effects, oldest first, by request id. *)
Definition fetch_of (e : Effect) : option nat :=
  match e with
  | GetSessions rid _ => Some rid
  | _ => None
  end.

Definition fetches (l : list Effect) : list nat := omap fetch_of l.

(** The session fetch sent last. *)
Definition last_fetch (l : list Effect) : option nat := last (fetches l).

(** The calls of [onSelectSession] among the effects, oldest first. *)
Definition callback_of (e : Effect) : option (Z * list Message) :=
  match e with
  | OnSelectSession sid messages => Some (sid, messages)
  | _ => None
  end.

Definition callbacks (l : list Effect) : list (Z * list Message) :=
  omap callback_of l.

(** The network calls among the effects. *)
Definition is_request (e : Effect) : bool :=
  match e with
  | GetSessions _ _ | GetMessages _ _ | PostSession _ _ _
  | PatchTitle _ _ _ | GetDownload _ _ _ => true
  | OnSelectSession _ _ | Alert _ | ConsoleError _ | SaveFile _ _ _ => false
  end.

Definition requests (l : list Effect) : list Effect := List.filter is_request l.

(** A request in flight that is a session fetch. *)
Definition is_fetch (p : Pending) : bool :=
  match kont p with
  | KFetch _ => true
  | _ => false
  end.

(** The auto-title effect fires: it sends a title patch or changes the
    local list. *)
Definition auto_title_fires (lastUserMessage : option string)
    (currentSessionId : option Z) (w : World) : Prop :=
  log (autoTitle lastUserMessage currentSessionId w) ≠ log w
  ∨ sessions (ui (autoTitle lastUserMessage currentSessionId w))
    ≠ sessions (ui w).

(** "Each new call cancels any earlier in-flight fetch", for every call of
    [fetchSessions] whatever the user identity it runs with. *)
Definition every_call_supersedes : Prop :=
  ∀ (evs : list Event) (w : World) (userId : option string)
    (rid : nat) (p : Pending),
    run evs init = Some w →
    pending w !! rid = Some p → is_fetch p = true →
    ∃ p', pending (fetchSessions None userId w) !! rid = Some p'
          ∧ cancelled p' = true.

(** The invariant of the session fetches: a fetch in flight whose token is
    not cancelled is the one [cancelRef] names, and [cancelRef] names the
    fetch sent last. *)
Definition fetch_inv (w : World) : Prop :=
  (∀ rid p, pending w !! rid = Some p → is_fetch p = true →
            cancelled p = false → cancelRef w = Some rid)
  ∧ cancelRef w = last_fetch (log w).

(** Request ids are fresh: every request in flight was numbered before
    [next_rid]. *)
Definition fresh_inv (w : World) : Prop :=
  ∀ rid, is_Some (pending w !! rid) → (rid < next_rid w)%nat.

(** The sessions of the example in the specification. *)
Definition session1 : ChatSession :=
  {| session_id := 1; title := None; created_at := None |}.
Definition session2 : ChatSession :=
  {| session_id := 2; title := Some "Trip plan"; created_at := None |}.
Definition weather : string :=
  "What's the weather tomorrow in Yangon and will it rain all week long".

(** The component after a fetch has returned the two sessions. *)
Definition loaded : World := update (setSessions [session1; session2]) init.

(** The component while its first session fetch, for user "u1", is in
    flight. *)
Definition fetching : World := fetchSessions None (Some "u1") init.

(** ** Rendering, lines 36-38 and 174-346 *)

(** [Array.prototype.join] on strings. *)
Fixpoint join (sep : string) (l : list string) : string :=
  match l with
  | [] => ""
  | x :: l' =>
      match l' with
      | [] => x
      | _ :: _ => x +:+ sep +:+ join sep l'
      end
  end.

(** [classes.filter(Boolean)]: an argument of [cn] is a string or one of
    [false], [null], [undefined] (here [None]); the truthy ones are the
    strings that are not empty. *)
Definition truthy_classes (classes : list (option string)) : list string :=
  omap (λ c : option string, if to_boolean c then c else None) classes.

(** [cn(...classes)], lines 36-38. *)
Definition cn (classes : list (option string)) : string :=
  join " " (truthy_classes classes).

(** [s.charAt(i)]: the empty string when [i] is out of range. *)
Definition charAt (i : nat) (s : string) : string :=
  match String.get i s with
  | Some c => String c ""
  | None => ""
  end.

(** The two bodies of the sidebar, [SidebarBody] and
    [MobileSidebarBody]. *)
Inductive Layout := Desktop | Mobile.

(** One button of the session list: the session its click selects, whether
    it is the current one, its text, the label shown on hover (the desktop
    tooltip, the mobile [title] attribute), and on mobile the [created_at]
    handed to [new Date] when there is one. *)
Record Item := {
  item_key : Z;
  item_active : bool;
  item_text : string;
  item_hint : option string;
  item_date : option string;
}.

(** What the middle section shows. *)
Inductive Panel :=
  | Skeleton (rows : nat)
  | ErrorText (message : string)
  | EmptyText (message : string)
  | SessionList (items : list Item).

Section Render.

(** The decimal text of a number in a template literal, and
    [String.prototype.toUpperCase]: both belong to the language. *)
Variable String_of_number : Z → string.
Variable toUpperCase : string → string.

(** [s.title || `Chat ${s.session_id}`]. *)
Definition label (s : ChatSession) : string :=
  if to_boolean (title s) then default "" (title s)
  else "Chat " +:+ String_of_number (session_id s).

(** [s.session_id === currentSessionId]. *)
Definition active (currentSessionId : option Z) (s : ChatSession) : bool :=
  bool_decide (Some (session_id s) = currentSessionId).

(** The button made for a session, lines 216-240 and 314-340. *)
Definition item (layout : Layout) (expand : bool)
    (currentSessionId : option Z) (s : ChatSession) : Item :=
  match layout with
  | Desktop =>
      {| item_key := session_id s;
         item_active := active currentSessionId s;
         item_text := if expand then label s
                      else toUpperCase (charAt 0 (label s));
         item_hint := if negb expand then Some (label s) else None;
         item_date := None |}
  | Mobile =>
      {| item_key := session_id s;
         item_active := active currentSessionId s;
         item_text := label s;
         item_hint := Some (label s);
         item_date := if to_boolean (created_at s) then created_at s
                      else None |}
  end.

(** The middle section, lines 203-243 and 300-342:
    [loading ? ... : error ? ... : sessions.length === 0 ? ... : ...]. *)
Definition panel (layout : Layout) (expand : bool)
    (currentSessionId : option Z) (s : State) : Panel :=
  if loading s
  then Skeleton (match layout with Desktop => 6 | Mobile => 8 end)
  else if to_boolean (error s) then ErrorText (default "" (error s))
  else if bool_decide (length (sessions s) = 0%nat)
  then EmptyText (match layout with
                  | Desktop => "No sessions"
                  | Mobile => "No sessions yet. Start one with New chat."
                  end)
  else SessionList (item layout expand currentSessionId <$> sessions s).

End Render.

(** [currentSessionId && expand], line 248: whether the desktop body shows
    the download menu. *)
Definition download_menu (currentSessionId : option Z) (expand : bool)
  : bool :=
  to_boolean currentSessionId && expand.

(** [disabled={creating}], lines 184 and 286: the "New chat" button calls
    [handleCreate] only while it is enabled. *)
Definition new_chat_enabled (w : World) : bool := negb (creating (ui w)).

(** A step the rendered sidebar allows: a click on "New chat" needs the
    button enabled; every other event is as in [step]. *)
Definition ui_step (e : Event) (w : World) : option World :=
  match e with
  | EvCreate _ => if new_chat_enabled w then step e w else None
  | _ => step e w
  end.

Fixpoint ui_run (evs : list Event) (w : World) : option World :=
  match evs with
  | [] => Some w
  | e :: evs => w' ← ui_step e w; ui_run evs w'
  end.

(** A request in flight that belongs to a [handleCreate] call: its [POST],
    or the refresh it awaits. *)
Definition is_create (p : Pending) : bool :=
  match kont p with
  | KCreate _ | KFetch (Some _) => true
  | _ => false
  end.

(** A session fetch whose token has not been cancelled. *)
Definition is_live (p : Pending) : bool := is_fetch p && negb (cancelled p).

(** Request [rid] is in flight and of the kind [P]. *)
Definition in_flight (P : Pending → bool) (w : World) (rid : nat) : Prop :=
  ∃ p, pending w !! rid = Some p ∧ P p = true.

(** The request an event settles, if it settles one. *)
Definition settled (e : Event) : option nat :=
  match e with
  | EvSessions rid _ | EvMessages rid _ | EvCreated rid _ | EvPatched rid _
  | EvDownloaded rid _ => Some rid
  | EvFetch _ | EvAutoTitle _ _ | EvSelect _ | EvCreate _ | EvDownload _ _ =>
      None
  end.

(** Request [rid] is in flight in [w], waiting with the continuation of
    [p]. *)
Definition waiting (rid : nat) (p : Pending) (w : World) : Prop :=
  ∃ p', pending w !! rid = Some p' ∧ kont p' = kont p.

(** Every request of kind [P] in flight in [w'] was in flight in [w]. *)
Definition flight_sub (P : Pending → bool) (w' w : World) : Prop :=
  ∀ rid, in_flight P w' rid → in_flight P w rid.

(** While a session fetch is live, no error is set. *)
Definition error_inv (w : World) : Prop :=
  ∀ rid, in_flight is_live w rid → error (ui w) = None.

(** The flags are backed by requests: [loading] needs a session fetch in
    flight, [creating] a creation in flight. *)
Definition flags_inv (w : World) : Prop :=
  (loading (ui w) = true → ∃ rid, in_flight is_fetch w rid)
  ∧ (creating (ui w) = true → ∃ rid, in_flight is_create w rid).

(** With the button gating the clicks: a creation in flight keeps
    [creating] set, and there is at most one. *)
Definition create_inv (w : World) : Prop :=
  (∀ rid, in_flight is_create w rid → creating (ui w) = true)
  ∧ (∀ r1 r2, in_flight is_create w r1 → in_flight is_create w r2 → r1 = r2).

(** The events of selecting, downloading and the settling of a title
    patch. *)
Definition keeps_state (e : Event) : bool :=
  match e with
  | EvSelect _ | EvDownload _ _ | EvMessages _ _ | EvPatched _ _
  | EvDownloaded _ _ => true
  | EvFetch _ | EvAutoTitle _ _ | EvCreate _ | EvSessions _ _
  | EvCreated _ _ => false
  end.

(** ** Strings as UTF-16 code units *)

(** A JavaScript string is a sequence of UTF-16 code units, and [slice],
    [length] and [===] work on those units.  The definitions above write
    strings with the 8-bit characters of [string], which is enough for the
    literals of the component; this module has the auto-title effect over
    code units proper, so that a message in any script is covered. *)
Module Utf16.

(** A code unit is a number below 65536; nothing below depends on the
    bound. *)
Abbreviation jsstring := (list N).

(** The code units of a text whose characters are all below 256: one unit
    per character, with the same number. *)
Definition of_string (s : string) : jsstring :=
  N_of_ascii <$> list_ascii_of_string s.

(** A string is falsy exactly when it is empty. *)
#[global] Instance jsstring_to_boolean : ToBoolean (list N) :=
  λ s, match s with [] => false | _ :: _ => true end.

(** [s.slice(b, e)], with the relative indices of [slice_index]. *)
Definition slice (b e : Z) (s : jsstring) : jsstring :=
  let len := Z.of_nat (length s) in
  let from := slice_index len b in
  let to := slice_index len e in
  take (Z.to_nat (Z.max (to - from) 0)) (drop (Z.to_nat from) s).

(** [interface ChatSession]. *)
Record ChatSession := {
  session_id : Z;
  title : option jsstring;
  created_at : option jsstring;
}.

(** [sessions.find((s) => s.session_id === currentSessionId)]. *)
Definition find_session (cur : Z) (sessions : list ChatSession)
  : option ChatSession :=
  List.find (λ s, session_id s =? cur) sessions.

(** [session.title === "New Chat" || !session.title]. *)
Definition untitled (s : ChatSession) : bool :=
  bool_decide (title s = Some (of_string "New Chat"))
  || negb (to_boolean (title s)).

(** The guard of the effect and the title it derives, lines 121-124. *)
Definition derive_title (lastUserMessage : option jsstring)
    (currentSessionId : option Z) (sessions : list ChatSession)
  : option (Z * jsstring) :=
  if negb (to_boolean lastUserMessage) || negb (to_boolean currentSessionId)
  then None
  else match lastUserMessage, currentSessionId with
       | Some msg, Some cur =>
           match find_session cur sessions with
           | Some session =>
               if untitled session then Some (cur, slice 0 40 msg) else None
           | None => None
           end
       | _, _ => None
       end.

(** [{ ...s, title: newTitle }]. *)
Definition with_title (newTitle : jsstring) (s : ChatSession) : ChatSession :=
  {| session_id := session_id s;
     title := Some newTitle;
     created_at := created_at s |}.

(** [prev.map((s) => s.session_id === currentSessionId ? {...s, title} : s)]. *)
Definition retitle (cur : Z) (newTitle : jsstring) (prev : list ChatSession)
  : list ChatSession :=
  (λ s, if session_id s =? cur then with_title newTitle s else s) <$> prev.

(** The effect, lines 120-134: the title patch it sends, if any, as the
    session id and the title, and the list after [setSessions]. *)
Definition autoTitle (lastUserMessage : option jsstring)
    (currentSessionId : option Z) (sessions : list ChatSession)
  : option (Z * jsstring) * list ChatSession :=
  match derive_title lastUserMessage currentSessionId sessions with
  | Some (cur, newTitle) =>
      (Some (cur, newTitle), retitle cur newTitle sessions)
  | None => (None, sessions)
  end.

(** The effect fires: it sends a patch or changes the list. *)
Definition fires (lastUserMessage : option jsstring)
    (currentSessionId : option Z) (sessions : list ChatSession) : Prop :=
  (autoTitle lastUserMessage currentSessionId sessions).1 ≠ None
  ∨ (autoTitle lastUserMessage currentSessionId sessions).2 ≠ sessions.

(** The sessions of the example in the specification. *)
Definition session1 : ChatSession :=
  {| session_id := 1; title := None; created_at := None |}.
Definition session2 : ChatSession :=
  {| session_id := 2; title := Some (of_string "Trip plan");
     created_at := None |}.

End Utf16.

(** A session written with 8-bit characters, in code units. *)
Definition utf16_session (s : ChatSession) : Utf16.ChatSession :=
  {| Utf16.session_id := session_id s;
     Utf16.title := Utf16.of_string <$> title s;
     Utf16.created_at := Utf16.of_string <$> created_at s |}.

(** ** [handleSelect] with a callback that may throw *)





(** "On success createSession refreshes and then selects", for every
    fulfilled creation request, whatever session id its response carries. *)
Definition refreshes_on_every_success : Prop :=
  ∀ (w : World) (uid : string) (sid : Z),
    to_boolean uid = true →
    ∃ w1 w2 rid',
      step (EvCreate (Some uid)) w = Some w1
      ∧ step (EvCreated (next_rid w) (Fulfilled (Some sid))) w1 = Some w2
      ∧ log w2 = (log w1 ++ [GetSessions rid' uid])%list.

(** * Properties *)

(** ** The model on concrete inputs *)

Example slice_from_the_end : slice (-3) 100 "abcdef" = "def".
Proof. reflexivity. Qed.

Example slice_short_message : slice 0 40 "Hi there" = "Hi there".
Proof. reflexivity. Qed.

Example zero_is_falsy : to_boolean (Some 0) = false.
Proof. reflexivity. Qed.

Example null_record_throws :
  to_messages (MessageArray [Some {| remote_role := "user"; content := "hi" |};
                             None])
  = None.
Proof. reflexivity. Qed.

(** Two calls in a row for the same user: the first fetch is rejected as
    cancelled, its [finally] resets [loading], and the second fetch is
    still in flight. *)
Example superseded_fetch :
  ∃ w, run [EvFetch (Some "u1"); EvFetch (Some "u1");
            EvSessions 0 (Rejected Cancelled)] init = Some w
       ∧ log w = [GetSessions 0 "u1"; GetSessions 1 "u1"]
       ∧ pending w !! 1%nat = Some {| kont := KFetch None; cancelled := false |}
       ∧ ui w = {| sessions := []; loading := false; error := None;
                   creating := false |}.
Proof. eexists. repeat split; reflexivity. Qed.

(** A fetch that was cancelled cannot be fulfilled any more. *)
Example cancelled_fetch_is_not_fulfilled :
  run [EvFetch (Some "u1"); EvFetch (Some "u1");
       EvSessions 0 (Fulfilled (SessionArray [session1]))] init = None.
Proof. reflexivity. Qed.

(** ** Strings *)

Lemma length_list_ascii_of_string (s : string) :
  length (list_ascii_of_string s) = String.length s.
Proof. induction s as [|c s IH]; simpl; congruence. Qed.

Lemma substring_first_chars (n : nat) (s : string) :
  String.substring 0 n s = first_chars n s.
Proof.
  revert s. induction n as [|n IH]; intros [|c s]; try reflexivity.
  simpl. rewrite IH. reflexivity.
Qed.

Lemma first_chars_min (n : nat) (s : string) :
  first_chars (n `min` String.length s) s = first_chars n s.
Proof.
  unfold first_chars. f_equal.
  rewrite <- length_list_ascii_of_string.
  generalize (list_ascii_of_string s). clear s.
  induction n as [|n IH]; intros [|c l]; simpl; try reflexivity.
  f_equal. apply IH.
Qed.

(** [slice(0, n)] keeps the first [n] characters. *)
Lemma slice_first_chars (n : nat) (s : string) :
  slice 0 (Z.of_nat n) s = first_chars n s.
Proof.
  unfold slice, slice_index.
  replace (0 <? 0) with false by reflexivity.
  destruct (Z.ltb_spec (Z.of_nat n) 0) as [?|_]; [lia|].
  rewrite Z.min_l by lia.
  replace (Z.to_nat 0) with 0%nat by reflexivity.
  replace (Z.to_nat ((Z.of_nat n `min` Z.of_nat (String.length s) - 0)
                       `max` 0))
    with (n `min` String.length s)%nat by lia.
  rewrite substring_first_chars. apply first_chars_min.
Qed.

Lemma length_first_chars (n : nat) (s : string) :
  (n ≤ String.length s)%nat → String.length (first_chars n s) = n.
Proof.
  intros Hn. unfold first_chars.
  rewrite <- length_list_ascii_of_string, list_ascii_of_string_of_list_ascii.
  rewrite length_take, length_list_ascii_of_string. lia.
Qed.

(** ** Truthiness *)

Lemma to_boolean_Some `{ToBoolean A} (a : A) :
  to_boolean (Some a) = to_boolean a.
Proof. reflexivity. Qed.

Lemma to_boolean_None `{ToBoolean A} : to_boolean (None : option A) = false.
Proof. reflexivity. Qed.

Lemma to_boolean_Z (n : Z) : to_boolean n = true ↔ n ≠ 0.
Proof.
  unfold to_boolean, Z_to_boolean. destruct (Z.eqb_spec n 0); simpl.
  - split; [discriminate | contradiction].
  - split; auto.
Qed.

Lemma to_boolean_string (s : string) : to_boolean s = true ↔ s ≠ "".
Proof. destruct s; simpl; split; try discriminate; auto; contradiction. Qed.

Lemma to_boolean_option_true `{ToBoolean A} (o : option A) :
  to_boolean o = true → ∃ a, o = Some a ∧ to_boolean a = true.
Proof. destruct o as [a|]; [eauto | discriminate]. Qed.

(** ** The auto-title effect *)

Lemma untitled_cases (s : ChatSession) :
  untitled s = true →
  title s = None ∨ title s = Some "" ∨ title s = Some "New Chat".
Proof.
  unfold untitled. destruct s as [id [[|c t]|] ca]; simpl; auto.
  case_bool_decide; [auto | discriminate].
Qed.

Lemma derive_title_Some msg cur l id t :
  derive_title msg cur l = Some (id, t) →
  ∃ m s, msg = Some m ∧ cur = Some id
         ∧ to_boolean m = true ∧ to_boolean id = true
         ∧ find_session id l = Some s ∧ untitled s = true
         ∧ t = slice 0 40 m.
Proof.
  unfold derive_title.
  destruct msg as [m|], cur as [c|];
    rewrite ?to_boolean_Some, ?to_boolean_None;
    try (destruct (to_boolean m); discriminate); try discriminate.
  destruct (to_boolean m) eqn:Hm, (to_boolean c) eqn:Hc; simpl;
    try discriminate.
  destruct (find_session c l) as [s|] eqn:Hfind; [|discriminate].
  destruct (untitled s) eqn:Hs; [|discriminate].
  intros [= <- <-]. exists m, s. auto 10.
Qed.

Lemma find_session_Some cur l s :
  find_session cur l = Some s → s ∈ l ∧ session_id s = cur.
Proof.
  intros [Hin Hid]%find_some. split; [by apply list_elem_of_In | lia].
Qed.

Lemma auto_title_fires_derive msg cur w :
  auto_title_fires msg cur w →
  ∃ id t, derive_title msg cur (sessions (ui w)) = Some (id, t).
Proof.
  unfold auto_title_fires, autoTitle.
  destruct (derive_title msg cur (sessions (ui w))) as [[id t]|]; [eauto|].
  intros [H|H]; by destruct H.
Qed.

Lemma lookup_retitle cur t (l : list ChatSession) (i : nat) s :
  l !! i = Some s →
  retitle cur t l !! i
  = Some (if session_id s =? cur then with_title t s else s).
Proof. intros H. unfold retitle. by rewrite list_lookup_fmap, H. Qed.

(** A session with a title of its own is left alone, remotely and locally:
    the effect changes nothing at all. *)
Lemma custom_title_is_kept msg id w s t :
  find_session id (sessions (ui w)) = Some s →
  title s = Some t → t ≠ "" → t ≠ "New Chat" →
  autoTitle msg (Some id) w = w.
Proof.
  intros Hfind Ht Hne Hnc. unfold autoTitle.
  destruct (derive_title msg (Some id) (sessions (ui w))) as [[id' t']|] eqn:Hd;
    [|reflexivity].
  apply derive_title_Some in Hd
    as (m & s' & _ & [= <-] & _ & _ & Hfind' & Hs' & _).
  rewrite Hfind in Hfind'. injection Hfind' as <-.
  apply untitled_cases in Hs'. rewrite Ht in Hs'.
  destruct Hs' as [?|[[= ?]|[= ?]]]; congruence.
Qed.

(** In a list with unique session ids, the session found under the id of
    an entry is that entry. *)
Lemma find_session_unique (l : list ChatSession) (i : nat) s s0 :
  NoDup (session_id <$> l) →
  l !! i = Some s → find_session (session_id s) l = Some s0 → s0 = s.
Proof.
  intros Hnd Hi [Hin Hid]%find_session_Some.
  apply list_elem_of_lookup in Hin as [j Hj].
  assert (i = j) as <-; [|congruence].
  apply (NoDup_lookup _ i j (session_id s) Hnd);
    rewrite list_lookup_fmap; [by rewrite Hi | by rewrite Hj, <- Hid].
Qed.

(** With unique session ids, as the data model has them, every entry of
    the list with a title of its own stays as it is, and no patch is sent
    for its id. *)
Lemma custom_title_survives msg cur w (i : nat) s t :
  NoDup (session_id <$> sessions (ui w)) →
  sessions (ui w) !! i = Some s →
  title s = Some t → t ≠ "" → t ≠ "New Chat" →
  sessions (ui (autoTitle msg cur w)) !! i = Some s
  ∧ ∀ rid newTitle,
      log (autoTitle msg cur w)
      ≠ (log w ++ [PatchTitle rid (session_id s) newTitle])%list.
Proof.
  intros Hnd Hi Ht Hne Hnc. unfold autoTitle.
  destruct (derive_title msg cur (sessions (ui w))) as [[c nt]|] eqn:Hd.
  - apply derive_title_Some in Hd as (m & s0 & _ & _ & _ & _ & Hf & Hu & _).
    assert (session_id s ≠ c) as Hc.
    { intros <-. rewrite (find_session_unique _ _ _ _ Hnd Hi Hf) in Hu.
      apply untitled_cases in Hu. rewrite Ht in Hu.
      destruct Hu as [?|[[= ?]|[= ?]]]; congruence. }
    simpl. split.
    + rewrite (lookup_retitle _ _ _ _ _ Hi).
      destruct (Z.eqb_spec (session_id s) c); [contradiction | reflexivity].
    + intros rid newTitle [_ [= _ ? _]]%app_inj_tail. congruence.
  - split; [exact Hi|]. intros rid newTitle Hlog.
    apply (f_equal length) in Hlog. rewrite length_app in Hlog.
    simpl in Hlog. lia.
Qed.

(** C2. The auto-title effect sends a title patch or changes the local
    list only when the last user message and the current session id are
    both truthy and the session found in the list under that id has no
    title, an empty title, or the title "New Chat".  So for a session found
    with any other title, no patch is sent and no local title changes. *)
Theorem auto_title_only_for_untitled (lastUserMessage : option string)
    (currentSessionId : option Z) (w : World) :
  auto_title_fires lastUserMessage currentSessionId w →
  to_boolean lastUserMessage = true ∧ to_boolean currentSessionId = true
  ∧ ∃ id s, currentSessionId = Some id
      ∧ find_session id (sessions (ui w)) = Some s
      ∧ s ∈ sessions (ui w) ∧ session_id s = id
      ∧ (title s = None ∨ title s = Some "" ∨ title s = Some "New Chat").
Proof.
  intros (id & t & Hd)%auto_title_fires_derive.
  apply derive_title_Some in Hd
    as (m & s & -> & -> & Hm & Hid & Hfind & Hs & _).
  split; [exact Hm|]. split; [exact Hid|].
  exists id, s. destruct (find_session_Some _ _ _ Hfind) as [Hin Heq].
  repeat split; try assumption. by apply untitled_cases.
Qed.

Lemma auto_title_only_for_untitled_witness :
  to_boolean (Some "hello") = true ∧ to_boolean (Some 1) = true
  ∧ ∃ id s, Some 1 = Some id
      ∧ find_session id (sessions (ui loaded)) = Some s
      ∧ s ∈ sessions (ui loaded) ∧ session_id s = id
      ∧ (title s = None ∨ title s = Some "" ∨ title s = Some "New Chat").
Proof.
  apply (auto_title_only_for_untitled (Some "hello") (Some 1) loaded).
  left. vm_compute. discriminate.
Defined.

(** The effect on the component, for a message written with 8-bit
    characters: when it fires for a message longer than 40 characters, the
    title it patches and writes is the first 40 characters of the message,
    every session with the current id gets it, and every other entry of the
    list is unchanged.  The same is proved over code units, for a message
    in any script, with the definitions of [Utf16]. *)
Theorem auto_title_first_40_chars (msg : string)
    (currentSessionId : option Z) (w : World) :
  (40 < String.length msg)%nat →
  auto_title_fires (Some msg) currentSessionId w →
  let newTitle := first_chars 40 msg in
  let w' := autoTitle (Some msg) currentSessionId w in
  String.length newTitle = 40%nat
  ∧ (msg = weather → newTitle = "What's the weather tomorrow in Yangon an")
  ∧ ∃ id, currentSessionId = Some id
      ∧ log w' = (log w ++ [PatchTitle (next_rid w) id newTitle])%list
      ∧ ∀ (i : nat) (s : ChatSession), sessions (ui w) !! i = Some s →
          sessions (ui w') !! i
          = Some (if bool_decide (session_id s = id)
                  then {| session_id := session_id s;
                          title := Some newTitle;
                          created_at := created_at s |}
                  else s).
Proof.
  intros Hlen Hfires newTitle w'.
  split; [apply length_first_chars; lia|].
  split; [intros ->; reflexivity|].
  destruct (auto_title_fires_derive _ _ _ Hfires) as (id & t & Hd).
  destruct (derive_title_Some _ _ _ _ _ Hd)
    as (m & s0 & [= <-] & -> & _ & _ & _ & _ & ->).
  change 40 with (Z.of_nat 40) in Hd. rewrite slice_first_chars in Hd.
  exists id. split; [reflexivity|].
  subst w'. unfold autoTitle. rewrite Hd. simpl.
  split; [reflexivity|].
  intros i s Hi. rewrite (lookup_retitle _ _ _ _ _ Hi). f_equal.
  destruct (Z.eqb_spec (session_id s) id) as [He|He].
  - by rewrite bool_decide_eq_true_2.
  - by rewrite bool_decide_eq_false_2.
Qed.

Lemma auto_title_first_40_chars_witness :
  let w' := autoTitle (Some weather) (Some 1) loaded in
  log w' = [PatchTitle 0 1 "What's the weather tomorrow in Yangon an"]
  ∧ sessions (ui w')
    = [ {| session_id := 1;
           title := Some "What's the weather tomorrow in Yangon an";
           created_at := None |};
        session2 ].
Proof.
  assert (Hlen : (40 < String.length weather)%nat) by (vm_compute; lia).
  assert (Hfires : auto_title_fires (Some weather) (Some 1) loaded)
    by (left; vm_compute; discriminate).
  destruct (auto_title_first_40_chars weather (Some 1) loaded Hlen Hfires)
    as (_ & Ht & id & [= <-] & Hlog & Hs).
  rewrite (Ht eq_refl) in Hlog, Hs.
  split; [exact Hlog|].
  apply list_eq. intros [|[|i]].
  - apply (Hs 0%nat session1 eq_refl).
  - apply (Hs 1%nat session2 eq_refl).
  - reflexivity.
Defined.

(** The title of the example as the specification prints it,
    "What's the weather tomorrow in Yangon a", has 39 characters and is not
    the title the effect derives. *)
Lemma example_title_is_not_derived :
  String.length "What's the weather tomorrow in Yangon a" = 39%nat
  ∧ ¬ (∀ msg cur w, (40 < String.length msg)%nat →
         auto_title_fires (Some msg) cur w →
         msg = weather →
         ∃ rid id,
           log (autoTitle (Some msg) cur w)
           = (log w ++ [PatchTitle rid id
                          "What's the weather tomorrow in Yangon a"])%list).
Proof.
  split; [reflexivity|].
  intros H.
  destruct (H weather (Some 1) loaded) as (rid & id & Hlog).
  - vm_compute; lia.
  - left. vm_compute. discriminate.
  - reflexivity.
  - vm_compute in Hlog. discriminate.
Qed.

(** ** The invariants of the steps *)

Lemma last_fetch_snoc (l : list Effect) (e : Effect) :
  last_fetch (l ++ [e])
  = match fetch_of e with Some rid => Some rid | None => last_fetch l end.
Proof.
  unfold last_fetch, fetches. rewrite omap_app. simpl.
  destruct (fetch_of e); simpl; [apply last_snoc | by rewrite app_nil_r].
Qed.

Create HintDb inv discriminated.

Lemma fetch_inv_update f w : fetch_inv w → fetch_inv (update f w).
Proof. exact id. Qed.

Lemma fetch_inv_emit e w :
  fetch_of e = None → fetch_inv w → fetch_inv (emit e w).
Proof.
  intros He [Hp Hc]. split; [exact Hp|]. simpl.
  by rewrite last_fetch_snoc, He.
Qed.

Lemma fetch_inv_settle rid w : fetch_inv w → fetch_inv (settle rid w).
Proof.
  intros [Hp Hc]. split; [|exact Hc]. simpl.
  intros r p [_ Hr]%lookup_delete_Some. by apply (Hp r p).
Qed.

Lemma fetch_inv_request e k w :
  (∀ rid, fetch_of (e rid) = None) →
  is_fetch {| kont := k; cancelled := false |} = false →
  fetch_inv w → fetch_inv (request e k w).
Proof.
  intros He Hk [Hp Hc]. split; simpl.
  - intros r p [[_ <-]|[_ Hr]]%lookup_insert_Some Hf ?; [congruence|].
    by apply (Hp r p).
  - by rewrite last_fetch_snoc, He.
Qed.

(** After [cancelRef.current?.cancel()], every fetch in flight is
    cancelled. *)
Lemma cancel_current_cancels w rid p :
  fetch_inv w →
  pending (cancel_current w) !! rid = Some p → is_fetch p = true →
  cancelled p = true.
Proof.
  intros [Hp _] Hr Hf. unfold cancel_current in Hr.
  destruct (cancelled p) eqn:Hc; [reflexivity|].
  destruct (cancelRef w) as [tok|] eqn:Htok; simpl in Hr.
  - apply lookup_alter_Some in Hr as [(<- & p0 & _ & ->)|[Hne Hr]].
    + discriminate.
    + specialize (Hp rid p Hr Hf Hc). congruence.
  - specialize (Hp rid p Hr Hf Hc). congruence.
Qed.

(** Cancelling takes no request out of flight and keeps what it waits
    for. *)
Lemma cancel_current_keeps w rid p :
  pending w !! rid = Some p →
  ∃ p', pending (cancel_current w) !! rid = Some p' ∧ kont p' = kont p.
Proof.
  intros Hr. unfold cancel_current.
  destruct (cancelRef w) as [tok|]; simpl; [|eauto].
  destruct (decide (tok = rid)) as [->|Hne].
  - eexists. split; [apply lookup_alter_Some; left; eauto|reflexivity].
  - exists p. by rewrite lookup_alter_ne.
Qed.

Lemma fetch_inv_handleCreate_finish sid w :
  fetch_inv w → fetch_inv (handleCreate_finish sid w).
Proof. intros. by apply fetch_inv_update, fetch_inv_emit. Qed.

Lemma fetch_inv_resume_awaiter awaiter w :
  fetch_inv w → fetch_inv (resume_awaiter awaiter w).
Proof.
  destruct awaiter; simpl; auto using fetch_inv_handleCreate_finish.
Qed.

Lemma fetch_inv_fetchSessions awaiter userId w :
  fetch_inv w → fetch_inv (fetchSessions awaiter userId w).
Proof.
  intros Hw. unfold fetchSessions.
  destruct (negb (to_boolean userId)); [by apply fetch_inv_resume_awaiter|].
  destruct userId as [uid|]; [|by apply fetch_inv_resume_awaiter].
  split; simpl.
  - intros r p [[<- <-]|[_ Hr]]%lookup_insert_Some Hf Hc.
    + by destruct (cancelRef w).
    + rewrite (cancel_current_cancels w r p Hw) in Hc; [discriminate|..];
        [|done].
      by destruct (cancelRef w).
  - rewrite last_fetch_snoc. simpl. by destruct (cancelRef w).
Qed.

Lemma fetch_inv_fetchSessions_resume o w :
  fetch_inv w → fetch_inv (fetchSessions_resume o w).
Proof.
  intros Hw. unfold fetchSessions_resume. apply fetch_inv_update.
  destruct o as [b|[|]]; auto using fetch_inv_update, fetch_inv_emit.
Qed.

#[local] Hint Resolve fetch_inv_update fetch_inv_emit fetch_inv_settle
  fetch_inv_request fetch_inv_handleCreate_finish fetch_inv_resume_awaiter
  fetch_inv_fetchSessions fetch_inv_fetchSessions_resume : inv.

Lemma fetch_inv_init : fetch_inv init.
Proof.
  split; [|reflexivity]. intros r p Hr. simpl in Hr.
  by rewrite lookup_empty in Hr.
Qed.

Lemma fetch_inv_step e w w' :
  step e w = Some w' → fetch_inv w → fetch_inv w'.
Proof.
  destruct e as [uid|msg cur|sid|uid|cur fmt|rid o|rid o|rid o|rid o|rid o];
    simpl; intros Hstep Hw.
  - injection Hstep as <-. auto with inv.
  - injection Hstep as <-. unfold autoTitle.
    destruct (derive_title _ _ _) as [[c t]|]; auto with inv.
  - injection Hstep as <-. unfold handleSelect. auto with inv.
  - injection Hstep as <-. unfold handleCreate.
    destruct (negb _); [done|]. destruct uid; auto with inv.
  - injection Hstep as <-. unfold handleDownload.
    destruct (negb _); [auto with inv|]. destruct cur; auto with inv.
  - destruct (pending w !! rid) as [[[aw| | | |] c]|]; try discriminate.
    case_bool_decide; [|discriminate]. injection Hstep as <-.
    auto with inv.
  - destruct (pending w !! rid) as [[[| sid | | |] c]|]; try discriminate.
    injection Hstep as <-. unfold handleSelect_resume, handleSelect_catch.
    destruct o as [b|f]; [destruct (to_messages b)|]; auto 6 with inv.
  - destruct (pending w !! rid) as [[[| | uid | |] c]|]; try discriminate.
    injection Hstep as <-. unfold handleCreate_resume.
    destruct o as [sid|f]; [|auto 6 with inv].
    destruct (to_boolean sid); [destruct sid|]; auto 6 with inv.
  - destruct (pending w !! rid) as [[[| | | |] c]|]; try discriminate.
    injection Hstep as <-. unfold patch_resume.
    destruct o; auto with inv.
  - destruct (pending w !! rid) as [[[| | | | sid fmt] c]|]; try discriminate.
    injection Hstep as <-. unfold handleDownload_resume.
    destruct o; auto 6 with inv.
Qed.

(** A run keeps the fetch invariant, so it holds after every run from
    the mounted component. *)
Lemma fetch_inv_run evs w w' :
  run evs w = Some w' → fetch_inv w → fetch_inv w'.
Proof.
  revert w. induction evs as [|e evs IH]; simpl; intros w Hrun Hw.
  - by injection Hrun as <-.
  - destruct (step e w) as [w1|] eqn:Hstep; [|discriminate]. simpl in Hrun.
    eauto using fetch_inv_step.
Qed.

Lemma fresh_inv_update f w : fresh_inv w → fresh_inv (update f w).
Proof. exact id. Qed.

Lemma fresh_inv_emit e w : fresh_inv w → fresh_inv (emit e w).
Proof. exact id. Qed.

Lemma fresh_inv_settle rid w : fresh_inv w → fresh_inv (settle rid w).
Proof.
  intros Hw r [p Hr]. simpl in *.
  apply lookup_delete_Some in Hr as [_ Hr]. apply Hw. eauto.
Qed.

Lemma fresh_inv_request e k w : fresh_inv w → fresh_inv (request e k w).
Proof.
  intros Hw r [p Hr]. simpl in *.
  apply lookup_insert_Some in Hr as [[<- _]|[_ Hr]]; [lia|].
  assert (r < next_rid w)%nat by (apply Hw; eauto). lia.
Qed.

Lemma fresh_inv_cancel_current w :
  fresh_inv w → fresh_inv (cancel_current w).
Proof.
  intros Hw. unfold cancel_current. destruct (cancelRef w) as [tok|]; [|done].
  intros r [p Hr]. simpl in *. apply Hw.
  apply lookup_alter_Some in Hr as [(_ & p0 & Hr & _)|[_ Hr]]; eauto.
Qed.

Lemma fresh_inv_resume_awaiter awaiter w :
  fresh_inv w → fresh_inv (resume_awaiter awaiter w).
Proof. by destruct awaiter. Qed.

Lemma fresh_inv_fetchSessions awaiter userId w :
  fresh_inv w → fresh_inv (fetchSessions awaiter userId w).
Proof.
  intros Hw. unfold fetchSessions.
  destruct (negb _); [by apply fresh_inv_resume_awaiter|].
  destruct userId; [|by apply fresh_inv_resume_awaiter].
  apply fresh_inv_request.
  by apply fresh_inv_update, fresh_inv_update, (fresh_inv_cancel_current w).
Qed.

Lemma fresh_inv_fetchSessions_resume o w :
  fresh_inv w → fresh_inv (fetchSessions_resume o w).
Proof. by destruct o as [b|[|]]. Qed.

#[local] Hint Resolve fresh_inv_update fresh_inv_emit fresh_inv_settle
  fresh_inv_request fresh_inv_resume_awaiter fresh_inv_fetchSessions
  fresh_inv_fetchSessions_resume : inv.

Lemma fresh_inv_init : fresh_inv init.
Proof. intros r [p Hr]. simpl in Hr. by rewrite lookup_empty in Hr. Qed.

Lemma fresh_inv_step e w w' :
  step e w = Some w' → fresh_inv w → fresh_inv w'.
Proof.
  destruct e as [uid|msg cur|sid|uid|cur fmt|rid o|rid o|rid o|rid o|rid o];
    simpl; intros Hstep Hw.
  - injection Hstep as <-. auto with inv.
  - injection Hstep as <-. unfold autoTitle.
    destruct (derive_title _ _ _) as [[c t]|]; auto with inv.
  - injection Hstep as <-. unfold handleSelect. auto with inv.
  - injection Hstep as <-. unfold handleCreate.
    destruct (negb _); [done|]. destruct uid; auto with inv.
  - injection Hstep as <-. unfold handleDownload.
    destruct (negb _); [auto with inv|]. destruct cur; auto with inv.
  - destruct (pending w !! rid) as [[[aw| | | |] c]|]; try discriminate.
    case_bool_decide; [|discriminate]. injection Hstep as <-.
    auto with inv.
  - destruct (pending w !! rid) as [[[| sid | | |] c]|]; try discriminate.
    injection Hstep as <-. unfold handleSelect_resume, handleSelect_catch.
    destruct o as [b|f]; [destruct (to_messages b)|]; auto 6 with inv.
  - destruct (pending w !! rid) as [[[| | uid | |] c]|]; try discriminate.
    injection Hstep as <-. unfold handleCreate_resume.
    destruct o as [sid|f]; [|auto 6 with inv].
    destruct (to_boolean sid); [destruct sid|]; auto 6 with inv.
  - destruct (pending w !! rid) as [[[| | | |] c]|]; try discriminate.
    injection Hstep as <-. unfold patch_resume.
    destruct o; auto with inv.
  - destruct (pending w !! rid) as [[[| | | | sid fmt] c]|]; try discriminate.
    injection Hstep as <-. unfold handleDownload_resume.
    destruct o; auto 6 with inv.
Qed.

(** A run keeps request ids fresh: a new request never takes the id of a
    request in flight. *)
Lemma fresh_inv_run evs w w' :
  run evs w = Some w' → fresh_inv w → fresh_inv w'.
Proof.
  revert w. induction evs as [|e evs IH]; simpl; intros w Hrun Hw.
  - by injection Hrun as <-.
  - destruct (step e w) as [w1|] eqn:Hstep; [|discriminate]. simpl in Hrun.
    eauto using fresh_inv_step.
Qed.

(** ** [fetchSessions] *)

(** What a settled session fetch does: the fetch was in flight, it was
    cancelled exactly when it is rejected as cancelled, and the rest of
    [fetchSessions] runs, then the rest of its awaiter. *)
Lemma step_sessions (rid : nat) (o : Outcome SessionsBody) (w w' : World) :
  step (EvSessions rid o) w = Some w' →
  ∃ awaiter,
    pending w !! rid = Some {| kont := KFetch awaiter;
                               cancelled := is_cancel o |}
    ∧ w' = resume_awaiter awaiter (fetchSessions_resume o (settle rid w)).
Proof.
  simpl. destruct (pending w !! rid) as [[[aw| | | |] c]|]; try discriminate.
  case_bool_decide as Hc; [|discriminate]. intros [= <-].
  exists aw. by rewrite Hc.
Qed.

Lemma ui_resume_awaiter awaiter w :
  sessions (ui (resume_awaiter awaiter w)) = sessions (ui w)
  ∧ loading (ui (resume_awaiter awaiter w)) = loading (ui w)
  ∧ error (ui (resume_awaiter awaiter w)) = error (ui w).
Proof. by destruct awaiter. Qed.

Lemma next_rid_cancel_current w : next_rid (cancel_current w) = next_rid w.
Proof. unfold cancel_current. by destruct (cancelRef w). Qed.

Lemma log_cancel_current w : log (cancel_current w) = log w.
Proof. unfold cancel_current. by destruct (cancelRef w). Qed.

Lemma ui_cancel_current w : ui (cancel_current w) = ui w.
Proof. unfold cancel_current. by destruct (cancelRef w). Qed.

(** A call with a user identity leaves every earlier fetch cancelled. *)
Lemma fetchSessions_supersedes awaiter uid w rid p :
  fetch_inv w → fresh_inv w →
  to_boolean uid = true →
  pending w !! rid = Some p → is_fetch p = true →
  ∃ p', pending (fetchSessions awaiter (Some uid) w) !! rid = Some p'
        ∧ cancelled p' = true.
Proof.
  intros Hinv Hfresh Huid Hr Hf. unfold fetchSessions.
  rewrite to_boolean_Some, Huid. simpl.
  assert (rid < next_rid w)%nat by (apply Hfresh; eauto).
  destruct (cancel_current_keeps w rid p Hr) as (p' & Hr' & Hk).
  exists p'. split.
  - rewrite lookup_insert_ne; [exact Hr'|].
    rewrite next_rid_cancel_current. lia.
  - apply (cancel_current_cancels w rid p' Hinv Hr').
    unfold is_fetch in *. by rewrite Hk.
Qed.

(** C1, amended. On every run from the mounted component:
    - a [fetchSessions] call made with a user identity cancels every
      earlier session fetch still in flight;
    - a call made without one is a no-op and cancels nothing;
    - when a session fetch settles, either it is the fetch sent last, or
      it is rejected as cancelled, and then neither [sessions] nor [error]
      changes.
    So only the response to the session fetch sent last is ever written
    to [sessions]. *)
Theorem latest_fetch_wins (evs : list Event) (w : World) :
  run evs init = Some w →
  (∀ awaiter uid rid p,
      to_boolean uid = true →
      pending w !! rid = Some p → is_fetch p = true →
      ∃ p', pending (fetchSessions awaiter (Some uid) w) !! rid = Some p'
            ∧ cancelled p' = true)
  ∧ (∀ userId, to_boolean userId = false → fetchSessions None userId w = w)
  ∧ (∀ rid o w', step (EvSessions rid o) w = Some w' →
       match o with
       | Rejected Cancelled =>
           sessions (ui w') = sessions (ui w) ∧ error (ui w') = error (ui w)
       | Rejected Failed =>
           last_fetch (log w) = Some rid ∧ sessions (ui w') = []
       | Fulfilled b =>
           last_fetch (log w) = Some rid ∧ sessions (ui w') = sessions_of b
       end).
Proof.
  intros Hrun.
  pose proof (fetch_inv_run _ _ _ Hrun fetch_inv_init) as Hinv.
  pose proof (fresh_inv_run _ _ _ Hrun fresh_inv_init) as Hfresh.
  split; [|split].
  - intros aw uid rid p Hu Hr Hf.
    by apply (fetchSessions_supersedes aw uid w rid p).
  - intros userId Hu. unfold fetchSessions. by rewrite Hu.
  - intros rid o w' (aw & Hr & ->)%step_sessions.
    destruct (ui_resume_awaiter aw (fetchSessions_resume o (settle rid w)))
      as (-> & _ & ->).
    destruct Hinv as [Hp Hc].
    destruct o as [b|[|]]; simpl; [| done |].
    + split; [|done]. rewrite <- Hc. by apply (Hp rid _ Hr).
    + split; [|done]. rewrite <- Hc. by apply (Hp rid _ Hr).
Qed.

(** Two calls for user "u1" in a row: the first fetch is cancelled, and its
    rejection changes neither [sessions] nor [error]. *)
Lemma latest_fetch_wins_witness :
  let w := fetchSessions None (Some "u1") fetching in
  let w' := fetchSessions_resume (Rejected Cancelled) (settle 0 w) in
  sessions (ui w') = sessions (ui w) ∧ error (ui w') = error (ui w).
Proof.
  intros w w'.
  assert (Hrun : run [EvFetch (Some "u1"); EvFetch (Some "u1")] init = Some w)
    by reflexivity.
  destruct (latest_fetch_wins _ w Hrun) as (_ & _ & H).
  apply (H 0%nat (Rejected Cancelled) w'). reflexivity.
Defined.

(** A call made while the user identity is absent cancels nothing: the
    fetch sent for "u1" stays in flight, and its response is written to
    [sessions] although a later call was made. *)
Lemma anonymous_call_does_not_supersede :
  ¬ every_call_supersedes
  ∧ ∃ w w',
      run [EvFetch (Some "u1"); EvFetch None] init = Some w
      ∧ step (EvSessions 0 (Fulfilled (SessionArray [session1]))) w = Some w'
      ∧ sessions (ui w') = [session1].
Proof.
  split.
  - intros H.
    destruct (H [EvFetch (Some "u1")] fetching None 0%nat
                {| kont := KFetch None; cancelled := false |})
      as (p' & Hp' & Hc); try reflexivity.
    vm_compute in Hp'. injection Hp' as <-. discriminate.
  - eexists _, _. split; [reflexivity|]. split; reflexivity.
Qed.

(** C5. When a session fetch is fulfilled, [sessions] becomes the returned
    array, or the empty list when the body is not an array. *)
Theorem fetch_success_replaces_sessions (rid : nat) (b : SessionsBody)
    (w w' : World) :
  step (EvSessions rid (Fulfilled b)) w = Some w' →
  sessions (ui w') = match b with SessionArray l => l | NotAnArray => [] end.
Proof.
  intros (aw & _ & ->)%step_sessions.
  destruct (ui_resume_awaiter aw
              (fetchSessions_resume (Fulfilled b) (settle rid w)))
    as (-> & _ & _).
  by destruct b.
Qed.

Lemma fetch_success_replaces_sessions_witness :
  sessions (ui (fetchSessions_resume
                  (Fulfilled (SessionArray [session1; session2]))
                  (settle 0 fetching)))
  = [session1; session2].
Proof.
  apply (fetch_success_replaces_sessions 0
           (SessionArray [session1; session2]) fetching).
  reflexivity.
Defined.

(** C6. Whenever a session fetch settles (fulfilled, failed, or rejected
    as cancelled), [loading] is [false] afterwards; and when it failed for
    a reason other than cancellation, [error] is "Could not load sessions"
    and [sessions] is empty. *)
Theorem fetch_settled_resets_loading (rid : nat) (o : Outcome SessionsBody)
    (w w' : World) :
  step (EvSessions rid o) w = Some w' →
  loading (ui w') = false
  ∧ (o = Rejected Failed →
     error (ui w') = Some "Could not load sessions" ∧ sessions (ui w') = []).
Proof.
  intros (aw & _ & ->)%step_sessions.
  destruct (ui_resume_awaiter aw (fetchSessions_resume o (settle rid w)))
    as (-> & -> & ->).
  split; [reflexivity|]. by intros ->.
Qed.

Lemma fetch_settled_resets_loading_witness :
  let w' := fetchSessions_resume (Rejected Failed) (settle 0 fetching) in
  loading (ui w') = false
  ∧ error (ui w') = Some "Could not load sessions" ∧ sessions (ui w') = [].
Proof.
  intros w'.
  destruct (fetch_settled_resets_loading 0 (Rejected Failed) fetching w')
    as [Hl He]; [reflexivity|].
  split; [exact Hl | exact (He eq_refl)].
Defined.

(** ** [handleSelect] *)

Lemma callbacks_snoc (l : list Effect) (e : Effect) :
  callbacks (l ++ [e])
  = (callbacks l ++ match callback_of e with Some c => [c] | None => [] end)%list.
Proof. unfold callbacks. rewrite omap_app. simpl. by destruct (callback_of e). Qed.

(** The messages [handleSelect] hands to the callback for an outcome. *)
Lemma handleSelect_resume_callbacks sid o w :
  callbacks (log (handleSelect_resume sid o w))
  = (callbacks (log w)
     ++ [(sid, match o with
               | Fulfilled b => default [] (to_messages b)
               | Rejected _ => []
               end)])%list.
Proof.
  unfold handleSelect_resume, handleSelect_catch.
  destruct o as [b|f]; [destruct (to_messages b)|]; simpl;
    rewrite !callbacks_snoc; simpl; by rewrite ?app_nil_r.
Qed.

(** However long the messages take, the request of a [handleSelect] call
    settles with one call of the callback, and only once: it is out of
    flight afterwards. *)
Lemma step_messages rid sid c o w :
  pending w !! rid = Some {| kont := KSelect sid; cancelled := c |} →
  ∃ w', step (EvMessages rid o) w = Some w'
        ∧ w' = handleSelect_resume sid o (settle rid w)
        ∧ pending w' !! rid = None.
Proof.
  intros Hr. simpl. rewrite Hr. eexists. split; [reflexivity|].
  split; [reflexivity|].
  unfold handleSelect_resume, handleSelect_catch.
  destruct o as [b|f]; [destruct (to_messages b)|]; simpl;
    apply lookup_delete_eq.
Qed.

(** With a callback that returns, as [step] has it: for every session id
    and every outcome of the message fetch, [handleSelect] calls
    [onSelectSession] exactly once, with that session id; when the fetch is
    rejected the message list is empty (as it is when the response body
    cannot be mapped). *)
Theorem selectSession_calls_back_once (w : World) (sid : Z)
    (o : Outcome MessagesBody) :
  ∃ w' messages,
    run [EvSelect sid; EvMessages (next_rid w) o] w = Some w'
    ∧ callbacks (log w') = (callbacks (log w) ++ [(sid, messages)])%list
    ∧ messages = match o with
                 | Fulfilled b => default [] (to_messages b)
                 | Rejected _ => []
                 end.
Proof.
  destruct (step_messages (next_rid w) sid false o (handleSelect sid w))
    as (w' & Hstep & -> & _); [apply lookup_insert_eq|].
  eexists _, _. split; [simpl in *; by rewrite Hstep|].
  split; [|reflexivity].
  rewrite handleSelect_resume_callbacks. simpl.
  by rewrite callbacks_snoc, app_nil_r.
Qed.

(** ** [handleCreate] *)

(** C8. Called without a user identity, [handleCreate] changes nothing: the
    world after the call is the world before it, so no request was sent and
    [sessions], [loading], [error] and [creating] are as they were. *)
Theorem createSession_without_user_is_noop (userId : option string)
    (w : World) :
  to_boolean userId = false →
  ∃ w', step (EvCreate userId) w = Some w'
        ∧ requests (log w') = requests (log w)
        ∧ ui w' = ui w
        ∧ w' = w.
Proof.
  intros Hu. exists w. simpl. unfold handleCreate. by rewrite Hu.
Qed.

Lemma createSession_without_user_is_noop_witness :
  ∃ w', step (EvCreate None) loaded = Some w'
        ∧ requests (log w') = requests (log loaded)
        ∧ ui w' = ui loaded
        ∧ w' = loaded.
Proof.
  apply (createSession_without_user_is_noop None loaded). reflexivity.
Defined.

(** However the session fetch awaited by [handleCreate] settles, and
    whatever happens before it does, the callback is then called with the
    new session id and no messages, and [creating] is reset. *)
Lemma step_sessions_awaited rid sid o w :
  pending w !! rid = Some {| kont := KFetch (Some sid);
                             cancelled := is_cancel o |} →
  ∃ w', step (EvSessions rid o) w = Some w'
        ∧ callbacks (log w') = (callbacks (log w) ++ [(sid, [])])%list
        ∧ creating (ui w') = false.
Proof.
  intros Hr. simpl. rewrite Hr, bool_decide_eq_true_2 by done.
  eexists. split; [reflexivity|]. split; [|reflexivity].
  simpl. rewrite callbacks_snoc. simpl. f_equal.
  destruct o as [b|[|]]; simpl; rewrite ?callbacks_snoc; simpl;
    by rewrite ?app_nil_r.
Qed.

(** The path of [handleCreate] on which the response carries a truthy
    session id: the [POST] with the title "New Chat", then a session fetch
    with [sessions] left alone until that fetch settles; then [sessions] is
    what the fetch gives, and the callback is called, once, with the new
    session id and no messages.  The outcome [o] of the fetch is any outcome
    this run allows: no other call is made in between, so the fetch is not
    cancelled; [step_sessions_awaited] covers the cancelled fetch. *)
Lemma handleCreate_with_session_id (w : World) (uid : string)
    (sid : Z) (o : Outcome SessionsBody) :
  to_boolean uid = true → to_boolean sid = true → is_cancel o = false →
  let rid := next_rid w in
  ∃ w1 w2 w3,
    step (EvCreate (Some uid)) w = Some w1
    ∧ log w1 = (log w ++ [PostSession rid uid "New Chat"])%list
    ∧ step (EvCreated rid (Fulfilled (Some sid))) w1 = Some w2
    ∧ log w2 = (log w1 ++ [GetSessions (S rid) uid])%list
    ∧ sessions (ui w2) = sessions (ui w)
    ∧ step (EvSessions (S rid) o) w2 = Some w3
    ∧ sessions (ui w3) = match o with
                         | Fulfilled (SessionArray l) => l
                         | _ => []
                         end
    ∧ callbacks (log w3) = (callbacks (log w) ++ [(sid, [])])%list.
Proof.
  intros Hu Hs Ho rid.
  set (w1 := request (λ rid, PostSession rid uid "New Chat") (KCreate uid)
               (update (setCreating true) w)).
  set (w2 := fetchSessions (Some sid) (Some uid) (settle rid w1)).
  assert (Hw2 : w2 = request (λ rid, GetSessions rid uid) (KFetch (Some sid))
                       (update (setError None) (update (setLoading true)
                          (new_cancel_source
                             (cancel_current (settle rid w1)))))).
  { unfold w2, fetchSessions. by rewrite to_boolean_Some, Hu. }
  exists w1, w2,
    (resume_awaiter (Some sid) (fetchSessions_resume o (settle (S rid) w2))).
  split. { simpl. unfold handleCreate. by rewrite to_boolean_Some, Hu. }
  split; [reflexivity|].
  split.
  { simpl. rewrite lookup_insert_eq. unfold handleCreate_resume.
    by rewrite to_boolean_Some, Hs. }
  split.
  { rewrite Hw2. simpl.
    by rewrite next_rid_cancel_current, log_cancel_current. }
  split. { rewrite Hw2. simpl. by rewrite ui_cancel_current. }
  split.
  { simpl. rewrite Hw2 at 1. simpl. rewrite next_rid_cancel_current. simpl.
    by rewrite lookup_insert_eq, Ho. }
  split.
  - by destruct o as [[l|]|[|]].
  - assert (Hlog : callbacks (log w2) = callbacks (log w)).
    { rewrite Hw2. simpl. rewrite log_cancel_current. simpl.
      rewrite !callbacks_snoc. simpl. by rewrite !app_nil_r. }
    simpl. rewrite callbacks_snoc. simpl. f_equal.
    destruct o as [b|[|]]; [| discriminate |]; simpl;
      rewrite ?callbacks_snoc; simpl; rewrite ?app_nil_r; exact Hlog.
Qed.

(** ** [handleDownload] *)

(** C9. With no session selected, [handleDownload] sends no request and
    shows the prompt "Please select a chat session to download.".  With a
    session selected and the transcript request rejected, the user is told
    "Failed to download chat history." and that request is the only one
    sent: nothing is in flight afterwards that was not before, so there is
    no retry. *)
Theorem download_prompts_or_reports (w : World) (cur : option Z) (sid : Z)
    (format : Format) (f : Failure) :
  to_boolean cur = false → to_boolean sid = true →
  let rid := next_rid w in
  (∃ w', step (EvDownload cur format) w = Some w'
         ∧ log w' = (log w
                     ++ [Alert "Please select a chat session to download."])%list
         ∧ pending w' = pending w ∧ ui w' = ui w)
  ∧ (∃ w', run [EvDownload (Some sid) format;
                EvDownloaded rid (Rejected f)] w = Some w'
           ∧ log w' = (log w
                       ++ [GetDownload rid sid format;
                           ConsoleError "Error downloading file:";
                           Alert "Failed to download chat history."])%list
           ∧ pending w' = delete rid (pending w) ∧ ui w' = ui w).
Proof.
  intros Hcur Hsid rid. split.
  - eexists. simpl. unfold handleDownload. rewrite Hcur. simpl.
    split; [reflexivity|]. done.
  - eexists. simpl. unfold handleDownload.
    rewrite to_boolean_Some, Hsid. simpl. rewrite lookup_insert_eq. simpl.
    split; [reflexivity|]. simpl.
    split; [by rewrite <- !app_assoc|].
    split; [apply delete_insert_eq | reflexivity].
Qed.

Lemma download_prompts_or_reports_witness :
  (∃ w', step (EvDownload None pdf) loaded = Some w'
         ∧ log w' = [Alert "Please select a chat session to download."]
         ∧ pending w' = pending loaded ∧ ui w' = ui loaded)
  ∧ (∃ w', run [EvDownload (Some 2) pdf;
                EvDownloaded 0 (Rejected Failed)] loaded = Some w'
           ∧ log w' = [GetDownload 0 2 pdf;
                       ConsoleError "Error downloading file:";
                       Alert "Failed to download chat history."]
           ∧ pending w' = delete 0%nat (pending loaded) ∧ ui w' = ui loaded).
Proof.
  apply (download_prompts_or_reports loaded None 2 pdf Failed); reflexivity.
Defined.

(** ** The mail helper *)

Section MailProperties.

Context {number Info : Type}.
Variable of_int : Z → number.
Variable Number_of_string : string → number.
Variable sendMail :
  Mail.TransportOptions (number := number) → Mail.MailOptions → Info.

(** C10. When [MAIL_PORT] is unset or empty in the environment the module
    is loaded under, the transporter is made with port 587.  And for every
    call of [sendEmail], whatever the arguments and whatever either
    environment holds, the message handed to the transport has the
    [MAIL_FROM] of the environment of the call as its sender, and the
    arguments as its other fields. *)
Theorem mail_default_port_and_sender (env0 env : gmap string string)
    (to subject text : string) (html : option string) :
  (env0 !! "MAIL_PORT" = None ∨ env0 !! "MAIL_PORT" = Some "" →
   Mail.port (Mail.transporter of_int Number_of_string env0) = of_int 587)
  ∧ Mail.sendEmail of_int Number_of_string sendMail env0 env
      to subject text html
    = sendMail (Mail.transporter of_int Number_of_string env0)
        {| Mail.from := env !! "MAIL_FROM"; Mail.to := to;
           Mail.subject := subject; Mail.text := text; Mail.html := html |}.
Proof.
  split; [|reflexivity].
  intros Hport. unfold Mail.transporter, Mail.port_setting. simpl.
  by destruct Hport as [-> | ->].
Qed.

End MailProperties.

(** With [MAIL_PORT] empty the port is 587; with [MAIL_PORT] set, the
    sender is still [MAIL_FROM]. *)
Lemma mail_default_port_and_sender_witness :
  let env0 : gmap string string :=
    {[ "MAIL_PORT" := ""; "MAIL_FROM" := "noreply@example.org" ]} in
  let env : gmap string string :=
    {[ "MAIL_PORT" := "2525"; "MAIL_FROM" := "noreply@example.org" ]} in
  Mail.port (Mail.transporter id (λ _, 0) env0) = 587
  ∧ Mail.from (Mail.sendEmail id (λ _, 0) (λ _ m, m) env env
                 "a@example.org" "Hi" "Hello" None)
    = Some "noreply@example.org".
Proof.
  intros env0 env. split.
  - apply (mail_default_port_and_sender id (λ _, 0) (λ _ m, m) env0 env0
             "a" "b" "c" None).
    right. vm_compute. reflexivity.
  - rewrite (proj2 (mail_default_port_and_sender id (λ _, 0) (λ _ m, m)
                      env env "a@example.org" "Hi" "Hello" None)).
    vm_compute. reflexivity.
Defined.

(** * Further properties of the sidebar *)

(** ** Class names *)

Lemma append_cons (x : ascii) (a b : string) :
  String x a +:+ b = String x (a +:+ b).
Proof. reflexivity. Qed.

Lemma append_assoc (a b c : string) : (a +:+ b) +:+ c = a +:+ (b +:+ c).
Proof.
  induction a as [|x a IH]; [reflexivity|].
  rewrite !append_cons. by rewrite IH.
Qed.

Lemma join_cons (sep x : string) (l : list string) :
  l ≠ [] → join sep (x :: l) = x +:+ sep +:+ join sep l.
Proof. by destruct l. Qed.

Lemma join_app (sep : string) (l1 l2 : list string) :
  l1 ≠ [] → l2 ≠ [] →
  join sep (l1 ++ l2) = join sep l1 +:+ sep +:+ join sep l2.
Proof.
  intros H1 H2. induction l1 as [|x l1 IH]; [done|].
  destruct l1 as [|y l1].
  - simpl app. by rewrite join_cons.
  - change ((x :: y :: l1) ++ l2)%list with (x :: ((y :: l1) ++ l2))%list.
    rewrite join_cons by done. rewrite IH by done.
    rewrite (join_cons sep x (y :: l1)) by done.
    by rewrite !append_assoc.
Qed.

Lemma truthy_classes_nonempty (classes : list (option string)) (s : string) :
  s ∈ truthy_classes classes → s ≠ "".
Proof.
  unfold truthy_classes. rewrite list_elem_of_omap.
  intros ([c|] & _ & Hc); [|discriminate].
  rewrite to_boolean_Some in Hc. destruct c; [discriminate|].
  by injection Hc as <-.
Qed.

Lemma join_empty (sep : string) (l : list string) :
  (∀ s, s ∈ l → s ≠ "") → join sep l = "" → l = [].
Proof.
  intros Hl. destruct l as [|x l]; [done|]. intros Hj.
  assert (x ≠ "") as Hx by (apply Hl; left).
  destruct l; simpl in Hj; destruct x; done.
Qed.

Lemma cn_empty (classes : list (option string)) :
  cn classes = "" ↔ truthy_classes classes = [].
Proof.
  unfold cn. split; [|by intros ->].
  apply join_empty, truthy_classes_nonempty.
Qed.

(** X1. [cn] of two argument lists put together is [cn] of each, joined
    by one space; when one side has no truthy class, the result is the
    other side alone, with no space added. *)
Theorem cn_app (l1 l2 : list (option string)) :
  cn (l1 ++ l2)
  = match cn l1, cn l2 with
    | "", b => b
    | a, "" => a
    | a, b => a +:+ " " +:+ b
    end.
Proof.
  destruct (cn l1) as [|x a] eqn:H1.
  - apply cn_empty in H1. unfold cn, truthy_classes in *.
    by rewrite omap_app, H1.
  - destruct (cn l2) as [|y b] eqn:H2.
    + apply cn_empty in H2. unfold cn, truthy_classes in *.
      by rewrite omap_app, H2, app_nil_r.
    + rewrite <- H1, <- H2. unfold cn, truthy_classes.
      rewrite omap_app. apply join_app.
      * intros H. unfold cn, truthy_classes in H1. by rewrite H in H1.
      * intros H. unfold cn, truthy_classes in H2. by rewrite H in H2.
Qed.

(** ** Messages *)

Lemma mapM_fmap_Some {A B} (f : A → B) (l : list A) :
  mapM (fmap f) (Some <$> l) = Some (f <$> l).
Proof.
  apply mapM_Some, Forall2_fmap, Forall_Forall2_diag, Forall_forall.
  by intros x _.
Qed.

Lemma mapM_fmap_None {A B} (f : A → B) (l : list (option A)) :
  mapM (fmap f) l = None ↔ None ∈ l.
Proof.
  rewrite mapM_None, Exists_exists. split.
  - intros ([x|] & Hin & Hx); [discriminate | exact Hin].
  - intros Hin. by exists None.
Qed.

(** X2. An array of records becomes one message per record, in the same
    order, [content] going to [text]; an array holding a [null] anywhere
    fails to map, and then the callback gets the session id with the empty
    list. *)
Theorem to_messages_array (records : list RemoteMessage)
    (l1 l2 : list (option RemoteMessage)) (sid : Z) (w : World) :
  to_messages (MessageArray (Some <$> records))
  = Some ((λ m, {| role := remote_role m; text := content m |}) <$> records)
  ∧ to_messages (MessageArray (l1 ++ None :: l2)) = None
  ∧ callbacks (log (handleSelect_resume sid
                      (Fulfilled (MessageArray (l1 ++ None :: l2))) w))
    = (callbacks (log w) ++ [(sid, [])])%list.
Proof.
  assert (to_messages (MessageArray (l1 ++ None :: l2)) = None) as Hn.
  { apply mapM_fmap_None. rewrite elem_of_app, elem_of_cons. auto. }
  split; [apply mapM_fmap_Some|]. split; [exact Hn|].
  rewrite handleSelect_resume_callbacks. by rewrite Hn.
Qed.

(** ** The title list *)

Lemma first_chars_all (n : nat) (s : string) :
  (String.length s ≤ n)%nat → first_chars n s = s.
Proof.
  intros Hn. unfold first_chars.
  rewrite take_ge by (rewrite length_list_ascii_of_string; lia).
  apply string_of_list_ascii_of_string.
Qed.

(** A title cut from a non-empty message is not empty, and it is
    "New Chat" only for the message "New Chat". *)
Lemma slice_40_title (m : string) :
  m ≠ "" →
  slice 0 40 m ≠ "" ∧ (slice 0 40 m = "New Chat" → m = "New Chat").
Proof.
  intros Hm. change 40 with (Z.of_nat 40). rewrite slice_first_chars.
  split.
  - destruct m as [|c m]; [done|]. discriminate.
  - intros Ht. destruct (decide (String.length m ≤ 40)%nat) as [Hle|Hgt].
    + by rewrite first_chars_all in Ht.
    + apply (f_equal String.length) in Ht.
      rewrite length_first_chars in Ht by lia. discriminate.
Qed.

Lemma find_session_retitle cur t l s :
  find_session cur l = Some s →
  find_session cur (retitle cur t l) = Some (with_title t s).
Proof.
  unfold find_session, retitle. induction l as [|x l IH]; [discriminate|].
  rewrite fmap_cons. cbn [find].
  destruct (session_id x =? cur) eqn:He.
  - intros [= ->]. cbn [session_id with_title]. by rewrite He.
  - intros Hl. rewrite He. by apply IH.
Qed.

(** X3. Unless the message is exactly "New Chat", running the auto-title
    effect again on its own result does nothing: no second patch, no
    further change.  (The effect depends on [sessions], so React does run
    it again after its own update.) *)
Theorem auto_title_settles (lastUserMessage : option string)
    (currentSessionId : option Z) (w : World) :
  lastUserMessage ≠ Some "New Chat" →
  autoTitle lastUserMessage currentSessionId
    (autoTitle lastUserMessage currentSessionId w)
  = autoTitle lastUserMessage currentSessionId w.
Proof.
  intros Hmsg. unfold autoTitle at 2 3.
  destruct (derive_title _ _ (sessions (ui w))) as [[c t]|] eqn:Hd.
  - destruct (derive_title_Some _ _ _ _ _ Hd)
      as (m & s & -> & -> & Hm & Hc & Hfind & Hs & ->).
    unfold autoTitle, derive_title. simpl.
    rewrite !to_boolean_Some, Hm, Hc. simpl.
    rewrite (find_session_retitle _ _ _ _ Hfind).
    apply to_boolean_string in Hm.
    destruct (slice_40_title m Hm) as [Hne Hnc].
    unfold untitled. simpl.
    rewrite bool_decide_eq_false_2 by (intros [= Ht]; naive_solver).
    rewrite to_boolean_Some. apply to_boolean_string in Hne.
    by rewrite Hne.
  - unfold autoTitle. by rewrite Hd.
Qed.

Lemma auto_title_settles_witness :
  autoTitle (Some weather) (Some 1) (autoTitle (Some weather) (Some 1) loaded)
  = autoTitle (Some weather) (Some 1) loaded.
Proof. apply auto_title_settles. discriminate. Defined.

(** One more run of the effect for the message "New Chat". *)
Lemma auto_title_new_chat_again id t w :
  derive_title (Some "New Chat") (Some id) (sessions (ui w)) = Some (id, t) →
  let w' := autoTitle (Some "New Chat") (Some id) w in
  derive_title (Some "New Chat") (Some id) (sessions (ui w'))
  = Some (id, "New Chat")
  ∧ log w' = (log w ++ [PatchTitle (next_rid w) id "New Chat"])%list
  ∧ next_rid w' = S (next_rid w).
Proof.
  intros Hd w'. subst w'. unfold autoTitle. rewrite Hd.
  destruct (derive_title_Some _ _ _ _ _ Hd)
    as (m & s & [= <-] & _ & _ & Hid & Hfind & _ & ->).
  simpl. split; [|done].
  unfold derive_title. rewrite !to_boolean_Some, Hid. simpl.
  by rewrite (find_session_retitle _ _ _ _ Hfind).
Qed.

(** X4. For the message "New Chat" the effect never settles: once it
    fires, every further run sends another title patch, so [n] runs send
    [n] patches. *)
Theorem auto_title_new_chat_loops (currentSessionId : option Z) (w : World)
    (n : nat) :
  auto_title_fires (Some "New Chat") currentSessionId w →
  ∃ id, currentSessionId = Some id
    ∧ log (Nat.iter n (autoTitle (Some "New Chat") currentSessionId) w)
      = (log w
         ++ ((λ k, PatchTitle (next_rid w + k) id "New Chat") <$> seq 0 n))%list.
Proof.
  intros (id & t & Hd)%auto_title_fires_derive.
  destruct (derive_title_Some _ _ _ _ _ Hd) as (m & s & _ & -> & _).
  exists id. split; [reflexivity|].
  assert (∀ n,
    let wn := Nat.iter n (autoTitle (Some "New Chat") (Some id)) w in
    (∃ t, derive_title (Some "New Chat") (Some id) (sessions (ui wn))
          = Some (id, t))
    ∧ next_rid wn = (next_rid w + n)%nat
    ∧ log wn
      = (log w ++ ((λ k, PatchTitle (next_rid w + k) id "New Chat")
                   <$> seq 0 n))%list) as H; [|apply H].
  clear n. induction n as [|n (( t' & Hd') & Hnext & Hlog)].
  - simpl. rewrite app_nil_r, Nat.add_0_r. eauto.
  - destruct (auto_title_new_chat_again _ _ _ Hd') as (Hd'' & Hlog'' & Hn'').
    simpl Nat.iter. cbv zeta. split; [eauto|].
    split; [rewrite Hn'', Hnext; lia|].
    rewrite Hlog'', Hlog, Hnext, seq_S, fmap_app, <- app_assoc. done.
Qed.

Lemma auto_title_new_chat_loops_witness :
  ∃ id, Some 1 = Some id
    ∧ log (Nat.iter 3 (autoTitle (Some "New Chat") (Some 1)) loaded)
      = (log loaded
         ++ ((λ k, PatchTitle (next_rid loaded + k) id "New Chat")
             <$> seq 0 3))%list.
Proof.
  apply (auto_title_new_chat_loops (Some 1) loaded 3).
  left. vm_compute. discriminate.
Defined.

(** X5. The auto-title effect keeps the list in shape: the session ids,
    the creation dates and the order of the entries are as before. *)
Theorem auto_title_keeps_ids (lastUserMessage : option string)
    (currentSessionId : option Z) (w : World) :
  let w' := autoTitle lastUserMessage currentSessionId w in
  session_id <$> sessions (ui w') = session_id <$> sessions (ui w)
  ∧ created_at <$> sessions (ui w') = created_at <$> sessions (ui w).
Proof.
  unfold autoTitle.
  destruct (derive_title _ _ _) as [[c t]|]; [|done]. simpl.
  unfold retitle. rewrite <- !list_fmap_compose.
  split; apply list_fmap_ext; intros i s _; simpl;
    by destruct (session_id s =? c).
Qed.

(** ** What the sidebar shows *)

Section RenderProperties.

Variable String_of_number : Z → string.
Variable toUpperCase : string → string.

#[local] Abbreviation label_of := (label String_of_number).
#[local] Abbreviation item_of := (item String_of_number toUpperCase).
#[local] Abbreviation panel_of := (panel String_of_number toUpperCase).

(** X6. The label of a session is never empty: it is the title when the
    title is set and not empty, and "Chat " followed by the id otherwise.
    So the collapsed sidebar always has one character to show for it. *)
Theorem label_is_never_empty (s : ChatSession) :
  label_of s ≠ ""
  ∧ String.length (charAt 0 (label_of s)) = 1%nat
  ∧ (title s = Some (label_of s)
     ∨ (to_boolean (title s) = false
        ∧ label_of s = "Chat " +:+ String_of_number (session_id s))).
Proof.
  unfold label.
  destruct (title s) as [[|c t]|]; simpl; repeat split; auto; discriminate.
Qed.

(** X7. After a session fetch has failed, the middle section shows the
    text "Could not load sessions", in both layouts, whatever the list
    held before. *)
Theorem failed_fetch_shows_error (layout : Layout) (expand : bool)
    (cur : option Z) (rid : nat) (w w' : World) :
  step (EvSessions rid (Rejected Failed)) w = Some w' →
  panel_of layout expand cur (ui w') = ErrorText "Could not load sessions".
Proof.
  intros (aw & _ & ->)%step_sessions. unfold panel.
  destruct (ui_resume_awaiter aw
              (fetchSessions_resume (Rejected Failed) (settle rid w)))
    as (_ & -> & ->).
  reflexivity.
Qed.

(** X8. A superseded fetch takes the skeleton away too early: after two
    calls in a row, once the first fetch is rejected as cancelled,
    [loading] is [false] and no skeleton is shown, although the second
    fetch is still in flight with a live token. *)
Theorem superseded_fetch_hides_skeleton (layout : Layout) (expand : bool)
    (cur : option Z) (uid uid' : string) (w : World) :
  to_boolean uid = true → to_boolean uid' = true →
  ∃ w', run [EvFetch (Some uid); EvFetch (Some uid');
             EvSessions (next_rid w) (Rejected Cancelled)] w = Some w'
        ∧ in_flight is_live w' (S (next_rid w))
        ∧ loading (ui w') = false
        ∧ ∀ rows, panel_of layout expand cur (ui w') ≠ Skeleton rows.
Proof.
  intros Hu Hu'.
  set (w1 := fetchSessions None (Some uid) w).
  set (w2 := fetchSessions None (Some uid') w1).
  assert (Hn1 : next_rid w1 = S (next_rid w)
                ∧ cancelRef w1 = Some (next_rid w)
                ∧ pending w1 !! next_rid w
                  = Some {| kont := KFetch None; cancelled := false |}).
  { unfold w1, fetchSessions. rewrite to_boolean_Some, Hu. simpl.
    rewrite next_rid_cancel_current, lookup_insert_eq. done. }
  destruct Hn1 as (Hn1 & Hc1 & Hp1).
  assert (Hp2 : pending w2 !! next_rid w
                = Some {| kont := KFetch None; cancelled := true |}
                ∧ pending w2 !! S (next_rid w)
                  = Some {| kont := KFetch None; cancelled := false |}).
  { unfold w2, fetchSessions. rewrite to_boolean_Some, Hu'. simpl.
    rewrite next_rid_cancel_current, Hn1. unfold cancel_current.
    rewrite Hc1. simpl. rewrite lookup_insert_eq.
    rewrite lookup_insert_ne by lia.
    by rewrite lookup_alter_eq, Hp1. }
  destruct Hp2 as [Hp2 Hp3].
  exists (fetchSessions_resume (Rejected Cancelled) (settle (next_rid w) w2)).
  split.
  { change (step (EvSessions (next_rid w) (Rejected Cancelled)) w2
            ≫= (λ w3, Some w3) = Some (fetchSessions_resume (Rejected Cancelled)
                                         (settle (next_rid w) w2))).
    simpl. by rewrite Hp2. }
  split.
  { exists {| kont := KFetch None; cancelled := false |}.
    split; [|reflexivity]. simpl.
    rewrite lookup_delete_ne by lia. exact Hp3. }
  split; [reflexivity|].
  intros rows. unfold panel. simpl.
  destruct (to_boolean (error (ui w2))); [discriminate|].
  by case_bool_decide.
Qed.

(** X9. In a list with unique session ids at most one button is marked
    as current, and it is the one of the current session. *)
Theorem one_active_item (layout : Layout) (expand : bool) (cur : option Z)
    (l : list ChatSession) (i j : nat) (a b : Item) :
  NoDup (session_id <$> l) →
  (item_of layout expand cur <$> l) !! i = Some a →
  (item_of layout expand cur <$> l) !! j = Some b →
  item_active a = true → item_active b = true →
  i = j ∧ cur = Some (item_key a).
Proof.
  intros Hnd Hi Hj Ha Hb.
  apply list_lookup_fmap_Some in Hi as (s & -> & Hs).
  apply list_lookup_fmap_Some in Hj as (s' & -> & Hs').
  assert (Hact : ∀ x, item_active (item_of layout expand cur x) = true →
                      cur = Some (session_id x)).
  { intros x. destruct layout; simpl; unfold active;
      by intros ->%bool_decide_eq_true. }
  assert (Hkey : ∀ x, item_key (item_of layout expand cur x) = session_id x)
    by (intros x; by destruct layout).
  pose proof (Hact _ Ha) as Hca. pose proof (Hact _ Hb) as Hcb.
  rewrite Hkey. split; [|exact Hca].
  apply (NoDup_lookup _ i j (session_id s) Hnd);
    rewrite list_lookup_fmap; [by rewrite Hs | rewrite Hs'; simpl].
  congruence.
Qed.

End RenderProperties.

Lemma superseded_fetch_hides_skeleton_witness :
  ∃ w', run [EvFetch (Some "u1"); EvFetch (Some "u1");
             EvSessions 0 (Rejected Cancelled)] init = Some w'
        ∧ in_flight is_live w' 1%nat
        ∧ loading (ui w') = false
        ∧ ∀ rows, panel (λ _, "1") id Desktop true None (ui w')
                  ≠ Skeleton rows.
Proof.
  apply (superseded_fetch_hides_skeleton (λ _, "1") id Desktop true None
           "u1" "u1" init);
    reflexivity.
Defined.

Lemma failed_fetch_shows_error_witness :
  panel (λ _, "1") id Mobile true (Some 1)
    (ui (fetchSessions_resume (Rejected Failed) (settle 0 fetching)))
  = ErrorText "Could not load sessions".
Proof.
  apply (failed_fetch_shows_error (λ _, "1") id Mobile true (Some 1) 0 fetching).
  reflexivity.
Defined.

Lemma one_active_item_witness :
  let b := item (λ _, "1") id Desktop true (Some 2) session2 in
  (1 = 1)%nat ∧ Some 2 = Some (item_key b).
Proof.
  intros b.
  apply (one_active_item (λ _, "1") id Desktop true (Some 2)
           [session1; session2] 1 1 b b); try reflexivity.
  apply (bool_decide_unpack _). vm_compute. exact I.
Defined.

(** ** Downloads, selection and creation *)

(** X10. Whenever the download menu is shown, [handleDownload] sends the
    transcript request for the current session and never the "Please
    select" prompt; when that request settles, the file is saved under the
    same session id and format, or the failure is reported, and the React
    state is left as it was. *)
Theorem download_from_menu (cur : option Z) (expand : bool)
    (format : Format) (o : Outcome Blob) (w : World) :
  download_menu cur expand = true →
  ∃ sid w',
    cur = Some sid
    ∧ run [EvDownload cur format; EvDownloaded (next_rid w) o] w = Some w'
    ∧ log w'
      = (log w
         ++ GetDownload (next_rid w) sid format
            :: match o with
               | Fulfilled data => [SaveFile sid format data]
               | Rejected _ => [ConsoleError "Error downloading file:";
                                Alert "Failed to download chat history."]
               end)%list
    ∧ ui w' = ui w.
Proof.
  unfold download_menu. intros [Hcur _]%andb_true_iff.
  destruct (to_boolean_option_true _ Hcur) as (sid & -> & Hsid).
  exists sid. eexists. split; [reflexivity|].
  simpl. unfold handleDownload. rewrite to_boolean_Some, Hsid. simpl.
  rewrite lookup_insert_eq. simpl. split; [reflexivity|].
  destruct o; simpl; rewrite <- ?app_assoc; done.
Qed.

Lemma download_from_menu_witness :
  ∃ sid w',
    Some 2 = Some sid
    ∧ run [EvDownload (Some 2) csv; EvDownloaded 0 (Fulfilled [])] loaded
      = Some w'
    ∧ log w' = [GetDownload 0 sid csv; SaveFile sid csv []]
    ∧ ui w' = ui loaded.
Proof.
  apply (download_from_menu (Some 2) true csv (Fulfilled []) loaded).
  reflexivity.
Defined.

(** X11. Selecting a session, downloading a transcript, and the settling
    of the message, transcript and title-patch requests never change
    [sessions], [loading], [error] or [creating]: in particular a failed
    title patch does not roll the local title back. *)
Theorem selection_and_download_keep_state (e : Event) (w w' : World) :
  keeps_state e = true → step e w = Some w' → ui w' = ui w.
Proof.
  destruct e as [uid|msg cur|sid|uid|cur fmt|rid o|rid o|rid o|rid o|rid o];
    try discriminate; intros _; simpl.
  - by intros [= <-].
  - intros [= <-]. unfold handleDownload.
    destruct (negb _); [done|]. by destruct cur.
  - destruct (pending w !! rid) as [[[| sid | | |] c]|]; try discriminate.
    intros [= <-]. unfold handleSelect_resume.
    destruct o as [b|f]; [by destruct (to_messages b)|done].
  - destruct (pending w !! rid) as [[[| | | |] c]|]; try discriminate.
    intros [= <-]. by destruct o.
  - destruct (pending w !! rid) as [[[| | | | sid fmt] c]|]; try discriminate.
    intros [= <-]. by destruct o.
Qed.

Lemma selection_and_download_keep_state_witness :
  ui (patch_resume (Rejected Failed)
        (settle 0 (autoTitle (Some weather) (Some 1) loaded)))
  = ui (autoTitle (Some weather) (Some 1) loaded).
Proof.
  apply (selection_and_download_keep_state (EvPatched 0 (Rejected Failed)));
    reflexivity.
Defined.

(** X12. When the creation request is rejected, or its response carries
    no session id, [handleCreate] ends there: [creating] is reset, no
    session fetch is sent, the callback is not called, and [sessions],
    [loading] and [error] are untouched.  Only a rejection is logged. *)
Theorem createSession_gives_up (uid : string) (o : Outcome CreateBody)
    (w : World) :
  to_boolean uid = true →
  match o with Fulfilled sid => to_boolean sid = false | Rejected _ => True end →
  ∃ w',
    run [EvCreate (Some uid); EvCreated (next_rid w) o] w = Some w'
    ∧ ui w' = setCreating false (ui w)
    ∧ requests (log w')
      = (requests (log w) ++ [PostSession (next_rid w) uid "New Chat"])%list
    ∧ callbacks (log w') = callbacks (log w)
    ∧ log w'
      = (log w
         ++ PostSession (next_rid w) uid "New Chat"
            :: match o with
               | Fulfilled _ => []
               | Rejected _ => [ConsoleError "Error creating new chat session:"]
               end)%list.
Proof.
  intros Hu Ho. eexists. split.
  { simpl. unfold handleCreate. rewrite to_boolean_Some, Hu. simpl.
    rewrite lookup_insert_eq. reflexivity. }
  unfold handleCreate_resume, requests, callbacks.
  destruct o as [sid|f].
  - rewrite Ho. simpl. rewrite List.filter_app, omap_app. simpl.
    by rewrite app_nil_r.
  - simpl. rewrite <- !app_assoc. simpl.
    rewrite List.filter_app, omap_app. simpl. by rewrite app_nil_r.
Qed.

Lemma createSession_gives_up_witness :
  ∃ w',
    run [EvCreate (Some "u1"); EvCreated 0 (Rejected Failed)] loaded = Some w'
    ∧ ui w' = setCreating false (ui loaded)
    ∧ requests (log w') = [PostSession 0 "u1" "New Chat"]
    ∧ callbacks (log w') = []
    ∧ log w' = [PostSession 0 "u1" "New Chat";
                ConsoleError "Error creating new chat session:"].
Proof.
  apply (createSession_gives_up "u1" (Rejected Failed) loaded);
    [reflexivity | exact I].
Defined.

(** ** Requests in flight *)

Lemma in_flight_settle P rid w r :
  in_flight P (settle rid w) r ↔ r ≠ rid ∧ in_flight P w r.
Proof.
  unfold in_flight. simpl. split.
  - intros (p & [Hne Hp]%lookup_delete_Some & HP). eauto.
  - intros (Hne & p & Hp & HP). exists p. split; [|done].
    by apply lookup_delete_Some.
Qed.

Lemma in_flight_request P e k w r :
  in_flight P (request e k w) r
  ↔ (r = next_rid w ∧ P {| kont := k; cancelled := false |} = true)
    ∨ (r ≠ next_rid w ∧ in_flight P w r).
Proof.
  unfold in_flight. simpl. split.
  - intros (p & [[<- <-]|[Hne Hp]]%lookup_insert_Some & HP); eauto 6.
  - intros [[-> HP]|(Hne & p & Hp & HP)].
    + eexists. split; [apply lookup_insert_eq | done].
    + exists p. split; [|done]. by rewrite lookup_insert_ne.
Qed.

(** Cancelling changes no request's kind. *)
Lemma in_flight_cancel_current P w r :
  (∀ p, P {| kont := kont p; cancelled := true |} = P p) →
  in_flight P (cancel_current w) r ↔ in_flight P w r.
Proof.
  intros HP. unfold in_flight, cancel_current.
  destruct (cancelRef w) as [tok|]; [|done]. simpl.
  destruct (decide (tok = r)) as [->|Hne].
  - rewrite lookup_alter_eq. destruct (pending w !! r) as [p|]; simpl.
    + split; intros (p' & [= <-] & H); eexists; (split; [done|]);
        by rewrite ?HP in *.
    + split; intros (p' & [=] & _).
  - by rewrite lookup_alter_ne.
Qed.

Lemma is_fetch_cancelled p :
  is_fetch {| kont := kont p; cancelled := true |} = is_fetch p.
Proof. reflexivity. Qed.

Lemma is_create_cancelled p :
  is_create {| kont := kont p; cancelled := true |} = is_create p.
Proof. reflexivity. Qed.

(** After cancelling, no session fetch is live. *)
Lemma in_flight_live_cancel_current w r :
  fetch_inv w → ¬ in_flight is_live (cancel_current w) r.
Proof.
  intros Hinv (p & Hp & [Hf Hc]%andb_true_iff).
  rewrite (cancel_current_cancels w r p Hinv Hp Hf) in Hc. discriminate.
Qed.

(** X13. At every moment of a run at most one session fetch is in flight
    with a live token, and it is the one [cancelRef] holds, the fetch sent
    last. *)
Theorem one_live_fetch (evs : list Event) (w : World) (r1 r2 : nat) :
  run evs init = Some w →
  in_flight is_live w r1 → in_flight is_live w r2 →
  r1 = r2 ∧ cancelRef w = Some r1 ∧ last_fetch (log w) = Some r1.
Proof.
  intros Hrun (p1 & Hp1 & [Hf1 Hc1]%andb_true_iff)
         (p2 & Hp2 & [Hf2 Hc2]%andb_true_iff).
  destruct (fetch_inv_run _ _ _ Hrun fetch_inv_init) as [Hp Hlast].
  apply negb_true_iff in Hc1, Hc2.
  pose proof (Hp r1 p1 Hp1 Hf1 Hc1) as H1.
  pose proof (Hp r2 p2 Hp2 Hf2 Hc2) as H2.
  split; [congruence|]. split; [done|]. by rewrite <- Hlast.
Qed.

Lemma one_live_fetch_witness :
  (0 = 0)%nat ∧ cancelRef fetching = Some 0%nat
  ∧ last_fetch (log fetching) = Some 0%nat.
Proof.
  apply (one_live_fetch [EvFetch (Some "u1")] fetching 0 0);
    [reflexivity | |];
    (exists {| kont := KFetch None; cancelled := false |};
     split; reflexivity).
Defined.

(** ** Errors and live fetches *)

Lemma flight_sub_refl P w : flight_sub P w w.
Proof. by intros r. Qed.

Lemma flight_sub_update P f x w :
  flight_sub P x w → flight_sub P (update f x) w.
Proof. exact id. Qed.

Lemma flight_sub_emit P e x w : flight_sub P x w → flight_sub P (emit e x) w.
Proof. exact id. Qed.

Lemma flight_sub_new_cancel_source P x w :
  flight_sub P x w → flight_sub P (new_cancel_source x) w.
Proof. exact id. Qed.

Lemma flight_sub_settle P rid x w :
  flight_sub P x w → flight_sub P (settle rid x) w.
Proof. intros H r [_ Hr]%in_flight_settle. by apply H. Qed.

Lemma flight_sub_request P e k x w :
  P {| kont := k; cancelled := false |} = false →
  flight_sub P x w → flight_sub P (request e k x) w.
Proof.
  intros Hk H r [[_ HP]|[_ Hr]]%in_flight_request; [congruence|by apply H].
Qed.

Lemma flight_sub_cancel_current P x w :
  (∀ p, P {| kont := kont p; cancelled := true |} = true → P p = true) →
  flight_sub P x w → flight_sub P (cancel_current x) w.
Proof.
  intros HP H r (p & Hp & Hk). apply H. unfold cancel_current in Hp.
  destruct (cancelRef x) as [tok|]; [|by exists p]. simpl in Hp.
  apply lookup_alter_Some in Hp as [(<- & p0 & Hp0 & ->)|[_ Hp]].
  - exists p0. split; [done | by apply HP].
  - by exists p.
Qed.

Lemma is_live_cancelled p :
  is_live {| kont := kont p; cancelled := true |} = true → is_live p = true.
Proof. unfold is_live. simpl. rewrite andb_false_r. discriminate. Qed.

(** Pushes a [flight_sub] goal through the primitives of a handler. *)
Ltac flight :=
  repeat first
    [ apply flight_sub_refl
    | apply flight_sub_settle
    | apply flight_sub_request; [reflexivity|]
    | apply flight_sub_cancel_current;
      [first [exact is_live_cancelled | intros ?; exact id]|]
    | apply flight_sub_new_cancel_source
    | apply flight_sub_emit
    | progress (apply flight_sub_update) ].

(** Splits a step into the event it takes and, for a settled request, the
    continuation that was waiting. *)
Ltac step_paths Hstep Hrid :=
  lazymatch type of Hstep with
  | step ?e ?w = Some _ =>
      destruct e as [uid|msg cur|sid|uid|cur fmt|rid o|rid o|rid o|rid o|rid o];
      simpl in Hstep;
      try (destruct (pending w !! rid) as [[[aw|sid|uid| |sid fmt] c]|] eqn:Hrid;
           simpl in Hstep; try discriminate Hstep);
      try (case_bool_decide; [|discriminate Hstep]);
      injection Hstep as <-
  end.

Lemma error_inv_keep w w' :
  flight_sub is_live w' w → error (ui w') = error (ui w) →
  error_inv w → error_inv w'.
Proof. intros Hsub He Hw r Hr. rewrite He. apply (Hw r). by apply Hsub. Qed.

Lemma error_inv_fetchSessions awaiter userId w :
  error_inv w → error_inv (fetchSessions awaiter userId w).
Proof.
  intros Hw. unfold fetchSessions.
  assert (error_inv (resume_awaiter awaiter w)) as Hr.
  { apply (error_inv_keep w); [|by destruct awaiter|done].
    destruct awaiter; simpl; unfold handleCreate_finish; flight. }
  destruct (negb _); [done|]. destruct userId; [|done].
  by intros r _.
Qed.

Lemma error_inv_step e w w' :
  fetch_inv w → error_inv w → step e w = Some w' → error_inv w'.
Proof.
  intros [Hp _] Hw Hstep. step_paths Hstep Hrid.
  - by apply error_inv_fetchSessions.
  - unfold autoTitle. destruct (derive_title _ _ _) as [[c t]|]; [|done].
    apply (error_inv_keep w); [flight|done..].
  - apply (error_inv_keep w); [unfold handleSelect; flight|done..].
  - unfold handleCreate. destruct (negb _); [done|].
    destruct uid; [|done]. apply (error_inv_keep w); [flight|done..].
  - unfold handleDownload. destruct (negb _); [|destruct cur; [|done]];
      (apply (error_inv_keep w); [flight|done..]).
  - destruct o as [b|[|]].
    + apply (error_inv_keep w); [|by destruct aw|done].
      destruct aw; simpl; unfold handleCreate_finish, fetchSessions_resume;
        flight.
    + apply (error_inv_keep w); [|by destruct aw|done].
      destruct aw; simpl; unfold handleCreate_finish, fetchSessions_resume;
        flight.
    + intros r Hr. exfalso.
      assert (flight_sub is_live
                (resume_awaiter aw
                   (fetchSessions_resume (Rejected Failed) (settle rid w)))
                (settle rid w)) as Hsub.
      { destruct aw; intros r0 H0; exact H0. }
      apply Hsub, in_flight_settle in Hr as [Hne (p & Hr & [Hf Hc]%andb_true_iff)].
      apply negb_true_iff in Hc. simpl in *. subst c.
      pose proof (Hp r p Hr Hf Hc) as H1.
      pose proof (Hp rid _ Hrid eq_refl eq_refl) as H2. congruence.
  - apply (error_inv_keep w); [|unfold handleSelect_resume, handleSelect_catch;
      destruct o as [b|f]; [by destruct (to_messages b)|done] |done].
    unfold handleSelect_resume, handleSelect_catch.
    destruct o as [b|f]; [destruct (to_messages b)|]; flight.
  - unfold handleCreate_resume.
    assert (error_inv (settle rid w)) as Hs
      by (apply (error_inv_keep w); [flight|done..]).
    destruct o as [s|f].
    + destruct (to_boolean s); [destruct s|];
        [by apply error_inv_fetchSessions|..];
        (apply (error_inv_keep w); [flight|done..]).
    + apply (error_inv_keep w); [flight|done..].
  - apply (error_inv_keep w); [|by destruct o|done].
    unfold patch_resume. destruct o; flight.
  - apply (error_inv_keep w); [|by destruct o|done].
    unfold handleDownload_resume. destruct o; flight.
Qed.

Lemma error_inv_run evs w w' :
  run evs w = Some w' → fetch_inv w → error_inv w → error_inv w'.
Proof.
  revert w. induction evs as [|e evs IH]; simpl; intros w Hrun Hf Hw.
  - by injection Hrun as <-.
  - destruct (step e w) as [w1|] eqn:Hstep; [|discriminate]. simpl in Hrun.
    eauto using fetch_inv_step, error_inv_step.
Qed.

Lemma error_inv_init : error_inv init.
Proof. intros r (p & Hp & _). simpl in Hp. by rewrite lookup_empty in Hp. Qed.

(** A successful fetch is shown. *)
Section ShownList.

Variable String_of_number : Z → string.
Variable toUpperCase : string → string.

(** X14. On every run, when a session fetch is fulfilled the middle
    section shows what it returned: one button per returned session, in
    the order returned, or the "No sessions" text when the response is
    empty or not an array.  No skeleton and no error text from an earlier
    failure is left over. *)
Theorem fulfilled_fetch_is_shown (layout : Layout) (expand : bool)
    (cur : option Z) (evs : list Event) (rid : nat) (b : SessionsBody)
    (w w' : World) :
  run evs init = Some w →
  step (EvSessions rid (Fulfilled b)) w = Some w' →
  panel String_of_number toUpperCase layout expand cur (ui w')
  = match b with
    | SessionArray (s :: l) =>
        SessionList (item String_of_number toUpperCase layout expand cur
                       <$> s :: l)
    | _ =>
        EmptyText (match layout with
                   | Desktop => "No sessions"
                   | Mobile => "No sessions yet. Start one with New chat."
                   end)
    end.
Proof.
  intros Hrun (aw & Hr & ->)%step_sessions.
  assert (error (ui w) = None) as He.
  { apply (error_inv_run _ _ _ Hrun fetch_inv_init error_inv_init rid).
    eexists. split; [exact Hr | reflexivity]. }
  unfold panel.
  destruct (ui_resume_awaiter aw
              (fetchSessions_resume (Fulfilled b) (settle rid w)))
    as (-> & -> & ->).
  simpl. rewrite He. simpl. by destruct b as [[|s l]|].
Qed.

End ShownList.

Lemma fulfilled_fetch_is_shown_witness :
  panel (λ _, "1") id Desktop true (Some 2)
    (ui (fetchSessions_resume (Fulfilled (SessionArray [session1; session2]))
           (settle 0 fetching)))
  = SessionList
      [ {| item_key := 1; item_active := false; item_text := "Chat 1";
           item_hint := None; item_date := None |};
        {| item_key := 2; item_active := true; item_text := "Trip plan";
           item_hint := None; item_date := None |} ].
Proof.
  apply (fulfilled_fetch_is_shown (λ _, "1") id Desktop true (Some 2)
           [EvFetch (Some "u1")] 0 (SessionArray [session1; session2])
           fetching); reflexivity.
Defined.

(** ** Requests are settled once and never dropped *)

Lemma waiting_request rid p e k w :
  fresh_inv w → waiting rid p w → waiting rid p (request e k w).
Proof.
  intros Hf (p' & Hp & Hk). exists p'. split; [|done]. simpl.
  rewrite lookup_insert_ne; [done|].
  assert (rid < next_rid w)%nat by (apply Hf; eauto). lia.
Qed.

Lemma waiting_settle rid p r w :
  rid ≠ r → waiting rid p w → waiting rid p (settle r w).
Proof.
  intros Hne (p' & Hp & Hk). exists p'. split; [|done]. simpl.
  by rewrite lookup_delete_ne.
Qed.

Lemma waiting_cancel_current rid p w :
  waiting rid p w → waiting rid p (cancel_current w).
Proof.
  intros (p' & Hp & Hk).
  destruct (cancel_current_keeps w rid p' Hp) as (p'' & Hp'' & Hk'').
  exists p''. split; [done | congruence].
Qed.

Lemma waiting_fetchSessions rid p awaiter userId w :
  fresh_inv w → waiting rid p w →
  waiting rid p (fetchSessions awaiter userId w).
Proof.
  intros Hf Hw. unfold fetchSessions.
  assert (waiting rid p (resume_awaiter awaiter w)) by (by destruct awaiter).
  destruct (negb _); [done|]. destruct userId; [|done].
  apply waiting_request.
  - by apply fresh_inv_update, fresh_inv_update, (fresh_inv_cancel_current w).
  - by apply (waiting_cancel_current rid p w).
Qed.

Lemma unsettled_fetchSessions rid awaiter userId w :
  (rid < next_rid w)%nat → pending w !! rid = None →
  pending (fetchSessions awaiter userId w) !! rid = None.
Proof.
  intros Hlt Hn. unfold fetchSessions.
  assert (pending (resume_awaiter awaiter w) !! rid = None)
    by (by destruct awaiter).
  destruct (negb _); [done|]. destruct userId; [|done]. simpl.
  rewrite next_rid_cancel_current, lookup_insert_ne by lia.
  unfold cancel_current. destruct (cancelRef w) as [tok|]; [|done]. simpl.
  destruct (decide (tok = rid)) as [->|?].
  - by rewrite lookup_alter_eq, Hn.
  - by rewrite lookup_alter_ne.
Qed.

(** A request that a step does not settle stays in flight. *)
Lemma step_keeps_waiting (e : Event) (w w' : World) (req : nat)
    (p : Pending) :
  fresh_inv w → step e w = Some w' →
  pending w !! req = Some p → settled e ≠ Some req →
  waiting req p w'.
Proof.
  intros Hf Hstep Hp Hs.
  assert (waiting req p w) as Hw by (by exists p).
  assert (∀ r, settled e = Some r → waiting req p (settle r w)) as Hsettle.
  { intros r Hr. apply waiting_settle; [congruence | done]. }
  step_paths Hstep Hrid.
  - by apply waiting_fetchSessions.
  - unfold autoTitle. destruct (derive_title _ _ _) as [[c t]|]; [|done].
    by apply (waiting_request req p _ _ w).
  - by apply waiting_request.
  - unfold handleCreate. destruct (negb _); [done|].
    destruct uid; [|done]. by apply (waiting_request req p _ _ (update _ w)).
  - unfold handleDownload. destruct (negb _); [done|].
    destruct cur; [|done]. by apply waiting_request.
  - specialize (Hsettle _ eq_refl). by destruct aw, o as [b|[|]].
  - specialize (Hsettle _ eq_refl). unfold handleSelect_resume.
    destruct o as [b|f]; [by destruct (to_messages b)|done].
  - specialize (Hsettle _ eq_refl). unfold handleCreate_resume.
    destruct o as [s|f]; [|done].
    destruct (to_boolean s); [destruct s|]; try done.
    apply waiting_fetchSessions; [by apply fresh_inv_settle | done].
  - specialize (Hsettle _ eq_refl). by destruct o.
  - specialize (Hsettle _ eq_refl). by destruct o.
Qed.

(** X15. A step never drops a request and never resumes one twice: every
    request in flight other than the one the step settles is still in
    flight afterwards, waiting with the same continuation, and the request
    it settles is out of flight for good. *)
Theorem step_settles_once (evs : list Event) (e : Event) (w w' : World)
    (req : nat) (p : Pending) :
  run evs init = Some w → step e w = Some w' →
  pending w !! req = Some p →
  if decide (settled e = Some req)
  then pending w' !! req = None
  else waiting req p w'.
Proof.
  intros Hrun Hstep Hp.
  pose proof (fresh_inv_run _ _ _ Hrun fresh_inv_init) as Hf.
  assert (req < next_rid w)%nat as Hlt by (apply Hf; eauto).
  case_decide as Hs; [|by apply (step_keeps_waiting e w)].
  destruct e as [| | | | |r o|r o|r o|r o|r o]; try discriminate;
    injection Hs as ->; simpl in Hstep; rewrite Hp in Hstep;
    destruct p as [[aw|sid|uid| |sid fmt] c]; try discriminate.
  - case_bool_decide; [|discriminate]. injection Hstep as <-.
    destruct aw, o as [b|[|]]; apply lookup_delete_eq.
  - injection Hstep as <-. unfold handleSelect_resume.
    destruct o as [b|f]; [destruct (to_messages b)|]; apply lookup_delete_eq.
  - injection Hstep as <-. unfold handleCreate_resume.
    destruct o as [s|f]; [|apply lookup_delete_eq].
    destruct (to_boolean s); [destruct s|]; try apply lookup_delete_eq.
    apply unsettled_fetchSessions; [done | apply lookup_delete_eq].
  - injection Hstep as <-. destruct o; apply lookup_delete_eq.
  - injection Hstep as <-. destruct o; apply lookup_delete_eq.
Qed.

Lemma step_settles_once_witness :
  waiting 0 {| kont := KFetch None; cancelled := false |}
    (handleSelect 2 fetching).
Proof.
  apply (step_settles_once [EvFetch (Some "u1")] (EvSelect 2) fetching
           (handleSelect 2 fetching) 0
           {| kont := KFetch None; cancelled := false |});
    reflexivity.
Defined.

(** ** The flags are backed by requests *)

Lemma in_flight_waiting P r p w :
  (∀ q, kont q = kont p → P q = P p) → P p = true →
  waiting r p w → in_flight P w r.
Proof. intros HP Hp (q & Hq & Hk). exists q. by rewrite (HP q Hk). Qed.

Lemma is_fetch_kont p q : kont q = kont p → is_fetch q = is_fetch p.
Proof. unfold is_fetch. by intros ->. Qed.

Lemma is_create_kont p q : kont q = kont p → is_create q = is_create p.
Proof. unfold is_create. by intros ->. Qed.

(** A call of [fetchSessions] that sends a fetch puts it in flight under
    the next request id. *)
Lemma fetchSessions_in_flight P awaiter uid w :
  to_boolean uid = true →
  P {| kont := KFetch awaiter; cancelled := false |} = true →
  in_flight P (fetchSessions awaiter (Some uid) w) (next_rid w).
Proof.
  intros Hu HP. unfold fetchSessions. rewrite to_boolean_Some, Hu. simpl.
  eexists. split; [|exact HP]. simpl.
  rewrite next_rid_cancel_current. apply lookup_insert_eq.
Qed.

Lemma fetchSessions_noop awaiter userId w :
  to_boolean userId = false →
  fetchSessions awaiter userId w = resume_awaiter awaiter w.
Proof. intros Hu. unfold fetchSessions. by rewrite Hu. Qed.

Lemma flags_inv_step e w w' :
  fresh_inv w → flags_inv w → step e w = Some w' → flags_inv w'.
Proof.
  intros Hf [Hload Hcreate] Hstep.
  assert (Hkeep : ∀ P : Pending → bool,
             (∀ p q, kont q = kont p → P q = P p) →
             (∀ r p, settled e = Some r → pending w !! r = Some p →
                     P p = false) →
             (∃ r, in_flight P w r) → ∃ r, in_flight P w' r).
  { intros P HP Hs (r & p & Hp & HPp). exists r.
    apply (in_flight_waiting P r p); [by intros q; apply HP | done |].
    apply (step_keeps_waiting e w); [done..|].
    intros Hse. rewrite (Hs r p Hse Hp) in HPp. discriminate. }
  split.
  - intros Hl.
    assert (in_flight is_fetch w' (next_rid w)
            ∨ (loading (ui w) = true
               ∧ ∀ r p, settled e = Some r → pending w !! r = Some p →
                        is_fetch p = false)) as [?|[Hl0 Hs]]; [|eauto|].
    { clear Hkeep. step_paths Hstep Hrid.
      - destruct (to_boolean uid) eqn:Hu.
        + destruct uid as [uid|]; [|discriminate]. left.
          by apply fetchSessions_in_flight.
        + rewrite fetchSessions_noop in * by done. right. by split.
      - right. split; [|discriminate]. unfold autoTitle in Hl.
        by destruct (derive_title _ _ _) as [[c t]|].
      - right. by split.
      - right. split; [|discriminate]. unfold handleCreate in Hl.
        destruct (negb _); [done|]. by destruct uid.
      - right. split; [|discriminate]. unfold handleDownload in Hl.
        destruct (negb _); [done|]. by destruct cur.
      - by destruct aw, o as [b|[|]].
      - right. split.
        + unfold handleSelect_resume in Hl.
          destruct o as [b|f]; [by destruct (to_messages b)|done].
        + intros r p [= <-] Hp. rewrite Hrid in Hp. by injection Hp as <-.
      - unfold handleCreate_resume in *.
        assert (∀ r p, Some rid = Some r → pending w !! r = Some p →
                       is_fetch p = false) as Hk.
        { intros r p [= <-] Hp. rewrite Hrid in Hp. by injection Hp as <-. }
        destruct o as [s|f]; [|right; by split].
        destruct (to_boolean s); [destruct s as [s|]|]; try (right; by split).
        destruct (to_boolean uid) eqn:Hu.
        + left. by apply (fetchSessions_in_flight _ _ _ (settle rid w)).
        + rewrite fetchSessions_noop in * by done. right. by split.
      - right. split; [by destruct o|].
        intros r p [= <-] Hp. rewrite Hrid in Hp. by injection Hp as <-.
      - right. split; [by destruct o|].
        intros r p [= <-] Hp. rewrite Hrid in Hp. by injection Hp as <-. }
    apply (Hkeep is_fetch); [apply is_fetch_kont | done | by apply Hload].
  - intros Hc.
    assert (in_flight is_create w' (next_rid w)
            ∨ (creating (ui w) = true
               ∧ ∀ r p, settled e = Some r → pending w !! r = Some p →
                        is_create p = false)) as [?|[Hc0 Hs]]; [|eauto|].
    { clear Hkeep. step_paths Hstep Hrid.
      - right. split; [|discriminate]. unfold fetchSessions in Hc.
        destruct (negb _); [done|]. destruct uid; [|done].
        simpl in Hc. by rewrite ui_cancel_current in Hc.
      - right. split; [|discriminate]. unfold autoTitle in Hc.
        by destruct (derive_title _ _ _) as [[c t]|].
      - right. by split.
      - unfold handleCreate in *. destruct (negb _); [right; by split|].
        destruct uid as [uid|]; [|right; by split]. left.
        eexists. split; [apply lookup_insert_eq | done].
      - right. split; [|discriminate]. unfold handleDownload in Hc.
        destruct (negb _); [done|]. by destruct cur.
      - destruct aw as [sid|]; [by destruct o as [b|[|]]|]. right. split.
        + by destruct o as [b|[|]].
        + intros r p [= <-] Hp. rewrite Hrid in Hp. by injection Hp as <-.
      - right. split.
        + unfold handleSelect_resume in Hc.
          destruct o as [b|f]; [by destruct (to_messages b)|done].
        + intros r p [= <-] Hp. rewrite Hrid in Hp. by injection Hp as <-.
      - unfold handleCreate_resume in *.
        destruct o as [s|f]; [|discriminate].
        destruct (to_boolean s); [destruct s as [s|]|]; try discriminate.
        destruct (to_boolean uid) eqn:Hu.
        + left. by apply (fetchSessions_in_flight _ _ _ (settle rid w)).
        + rewrite fetchSessions_noop in * by done. discriminate.
      - right. split; [by destruct o|].
        intros r p [= <-] Hp. rewrite Hrid in Hp. by injection Hp as <-.
      - right. split; [by destruct o|].
        intros r p [= <-] Hp. rewrite Hrid in Hp. by injection Hp as <-. }
    apply (Hkeep is_create); [apply is_create_kont | done | by apply Hcreate].
Qed.

Lemma flags_inv_init : flags_inv init.
Proof. split; discriminate. Qed.

(** X16. On every run, [loading] is set only while a session fetch is in
    flight, and [creating] only while a creation is in flight (its [POST],
    or the refresh it awaits): neither the skeleton nor the disabled
    "New chat" button can outlive the requests they stand for. *)
Theorem flags_are_backed (evs : list Event) (w : World) :
  run evs init = Some w →
  (loading (ui w) = true → ∃ rid, in_flight is_fetch w rid)
  ∧ (creating (ui w) = true → ∃ rid, in_flight is_create w rid).
Proof.
  assert (∀ w0, fresh_inv w0 → flags_inv w0 →
                run evs w0 = Some w → flags_inv w) as H;
    [|intros Hrun; apply (H init fresh_inv_init flags_inv_init Hrun)].
  induction evs as [|e evs IH]; simpl; intros w0 Hf Hw Hrun.
  - by injection Hrun as <-.
  - destruct (step e w0) as [w1|] eqn:Hstep; [|discriminate]. simpl in Hrun.
    eauto using fresh_inv_step, flags_inv_step.
Qed.

Lemma flags_are_backed_witness :
  (loading (ui fetching) = true → ∃ rid, in_flight is_fetch fetching rid)
  ∧ (creating (ui fetching) = true → ∃ rid, in_flight is_create fetching rid).
Proof. apply (flags_are_backed [EvFetch (Some "u1")]). reflexivity. Defined.

(** ** One creation at a time *)

Lemma create_inv_keep w w' :
  flight_sub is_create w' w → creating (ui w') = creating (ui w) →
  create_inv w → create_inv w'.
Proof.
  intros Hsub Hc [H1 H2]. split.
  - intros r Hr. rewrite Hc. by apply (H1 r), Hsub.
  - intros r1 r2 Hr1 Hr2. apply H2; by apply Hsub.
Qed.

Lemma create_inv_none w :
  (∀ r, ¬ in_flight is_create w r) → create_inv w.
Proof.
  intros Hn. split.
  - intros r Hr. by destruct (Hn r).
  - intros r1 r2 Hr1 _. by destruct (Hn r1).
Qed.

(** Once the one creation in flight is settled, none is left. *)
Lemma create_inv_settled rid p w w' :
  create_inv w → pending w !! rid = Some p → is_create p = true →
  flight_sub is_create w' (settle rid w) →
  ∀ r, ¬ in_flight is_create w' r.
Proof.
  intros [_ H2] Hp HP Hsub r [Hne Hr]%Hsub%in_flight_settle.
  apply Hne, H2; [done|]. by exists p.
Qed.

Lemma create_inv_fetchSessions_None userId w :
  create_inv w → create_inv (fetchSessions None userId w).
Proof.
  intros Hw. unfold fetchSessions. destruct (negb _); [done|].
  destruct userId; [|done]. apply (create_inv_keep w); [flight| |done].
  simpl. by rewrite ui_cancel_current.
Qed.

Lemma create_inv_step e w w' :
  create_inv w → ui_step e w = Some w' → create_inv w'.
Proof.
  intros Hw Hstep.
  assert (step e w = Some w'
          ∧ ∀ u, e = EvCreate u → creating (ui w) = false) as [Hstep' Hgate].
  { destruct e; try (split; [exact Hstep | discriminate]).
    simpl in Hstep. unfold new_chat_enabled in Hstep.
    destruct (creating (ui w)); [discriminate|]. by split. }
  clear Hstep. step_paths Hstep' Hrid.
  - by apply create_inv_fetchSessions_None.
  - unfold autoTitle. destruct (derive_title _ _ _) as [[c t]|]; [|done].
    apply (create_inv_keep w); [flight|done..].
  - apply (create_inv_keep w); [unfold handleSelect; flight|done..].
  - specialize (Hgate _ eq_refl). unfold handleCreate.
    destruct (negb _); [done|]. destruct uid as [uid|]; [|done].
    destruct Hw as [H1 _].
    assert (∀ r, in_flight is_create
                   (request (λ rid, PostSession rid uid "New Chat")
                      (KCreate uid) (update (setCreating true) w)) r →
                 r = next_rid w) as Hnew.
    { intros r [[-> _]|[_ Hr]]%in_flight_request; [done|].
      specialize (H1 r Hr). congruence. }
    split; [done|]. intros r1 r2 Hr1%Hnew Hr2%Hnew. congruence.
  - unfold handleDownload. destruct (negb _); [|destruct cur; [|done]];
      (apply (create_inv_keep w); [flight|done..]).
  - destruct aw as [sid|].
    + apply create_inv_none.
      apply (create_inv_settled rid _ w _ Hw Hrid eq_refl).
      destruct o as [b|[|]]; intros r0 H0; exact H0.
    + apply (create_inv_keep w); [|by destruct o as [b|[|]]|done].
      destruct o as [b|[|]]; simpl; unfold fetchSessions_resume; flight.
  - apply (create_inv_keep w); [|unfold handleSelect_resume, handleSelect_catch;
      destruct o as [b|f]; [by destruct (to_messages b)|done] |done].
    unfold handleSelect_resume, handleSelect_catch.
    destruct o as [b|f]; [destruct (to_messages b)|]; flight.
  - pose proof (create_inv_settled rid _ w (settle rid w) Hw Hrid eq_refl
                  (flight_sub_refl _ _)) as Hnone.
    assert (∀ x, flight_sub is_create x (settle rid w) → create_inv x)
      as Hdone.
    { intros x Hx. apply create_inv_none. intros r Hr%Hx. by apply (Hnone r). }
    assert (∀ x : World, pending x = pending (settle rid w) → create_inv x)
      as Hsame.
    { intros x Hx. apply Hdone. intros r (p & Hp & HP). exists p.
      by rewrite <- Hx. }
    unfold handleCreate_resume.
    destruct o as [s|f]; [|by apply Hsame].
    destruct (to_boolean s); [destruct s as [s|]|]; try by apply Hsame.
    unfold fetchSessions. destruct (negb _); [by apply Hsame|].
    assert (∀ r, in_flight is_create
                   (request (λ rid0, GetSessions rid0 uid) (KFetch (Some s))
                      (update (setError None) (update (setLoading true)
                         (new_cancel_source (cancel_current (settle rid w))))))
                   r →
                 r = next_rid w) as Hnew.
    { intros r [[-> _]|[_ Hr]]%in_flight_request.
      - simpl. by rewrite next_rid_cancel_current.
      - destruct (Hnone r).
        by apply (in_flight_cancel_current is_create (settle rid w)) in Hr. }
    destruct Hw as [H1 _]. split.
    + intros r _. simpl. rewrite ui_cancel_current. simpl.
      apply (H1 rid). by eexists.
    + intros r1 r2 Hr1%Hnew Hr2%Hnew. congruence.
  - apply (create_inv_keep w); [|by destruct o|done].
    unfold patch_resume. destruct o; flight.
  - apply (create_inv_keep w); [|by destruct o|done].
    unfold handleDownload_resume. destruct o; flight.
Qed.

Lemma create_inv_init : create_inv init.
Proof.
  apply create_inv_none. intros r (p & Hp & _). simpl in Hp.
  by rewrite lookup_empty in Hp.
Qed.

(** X17. With the "New chat" button disabled while [creating] is set, at
    most one creation is in flight at any moment, and while one is, the
    button is disabled. *)
Theorem one_creation_at_a_time (evs : list Event) (w : World) (r1 r2 : nat) :
  ui_run evs init = Some w →
  in_flight is_create w r1 → in_flight is_create w r2 →
  r1 = r2 ∧ new_chat_enabled w = false.
Proof.
  assert (∀ w0, create_inv w0 → ui_run evs w0 = Some w → create_inv w) as H.
  { induction evs as [|e evs IH]; simpl; intros w0 Hw Hrun.
    - by injection Hrun as <-.
    - destruct (ui_step e w0) as [w1|] eqn:Hstep; [|discriminate].
      simpl in Hrun. eauto using create_inv_step. }
  intros Hrun Hr1 Hr2. destruct (H init create_inv_init Hrun) as [H1 H2].
  split; [by apply H2|]. unfold new_chat_enabled. by rewrite (H1 r1).
Qed.

Lemma one_creation_at_a_time_witness :
  (0 = 0)%nat ∧ new_chat_enabled (handleCreate (Some "u1") init) = false.
Proof.
  apply (one_creation_at_a_time [EvCreate (Some "u1")]
           (handleCreate (Some "u1") init) 0 0);
    [reflexivity | |];
    (exists {| kont := KCreate "u1"; cancelled := false |};
     split; reflexivity).
Defined.

(** Without the button, nothing stops a second call: two creations are in
    flight, as the handler itself has no lock. *)
Example two_creations_without_the_button :
  ∃ w, run [EvCreate (Some "u1"); EvCreate (Some "u1")] init = Some w
       ∧ in_flight is_create w 0 ∧ in_flight is_create w 1
       ∧ ui_run [EvCreate (Some "u1"); EvCreate (Some "u1")] init = None.
Proof.
  eexists. split; [reflexivity|].
  repeat split; try (eexists; split; reflexivity).
Qed.

(** ** The mail helper reads five variables *)

Section MailFrame.

Context {number : Type}.
Variable of_int : Z → number.
Variable Number_of_string : string → number.

(** X18. The mail helper depends on the environment through [MAIL_HOST],
    [MAIL_PORT], [MAIL_USER], [MAIL_PASS] and [MAIL_FROM] only: setting
    any other variable changes neither the transporter options nor the
    message; and a [MAIL_PORT] that is set and not empty is handed to
    [Number] as it is, be it "0" or not a number at all, with no fallback
    to 587. *)
Theorem mail_reads_only_its_variables (env : gmap string string)
    (k v port_text : string) (to subject text : string)
    (html : option string) :
  k ∉ ["MAIL_HOST"; "MAIL_PORT"; "MAIL_USER"; "MAIL_PASS"; "MAIL_FROM"] →
  port_text ≠ "" →
  Mail.transporter of_int Number_of_string (<[k := v]> env)
  = Mail.transporter of_int Number_of_string env
  ∧ Mail.message (<[k := v]> env) to subject text html
    = Mail.message env to subject text html
  ∧ Mail.port (Mail.transporter of_int Number_of_string
                 (<["MAIL_PORT" := port_text]> env))
    = Number_of_string port_text.
Proof.
  intros Hk Hport.
  repeat (apply not_elem_of_cons in Hk as [? Hk]).
  split; [|split].
  - unfold Mail.transporter, Mail.port_setting.
    by rewrite !lookup_insert_ne.
  - unfold Mail.message. by rewrite lookup_insert_ne.
  - unfold Mail.transporter, Mail.port_setting. simpl.
    rewrite lookup_insert_eq. apply to_boolean_string in Hport.
    by rewrite Hport.
Qed.

End MailFrame.

Lemma mail_reads_only_its_variables_witness :
  let env : gmap string string := {[ "MAIL_HOST" := "smtp.example.org" ]} in
  Mail.transporter id (λ _, 0) (<["HOME" := "/root"]> env)
  = Mail.transporter id (λ _, 0) env
  ∧ Mail.message (<["HOME" := "/root"]> env) "a@example.org" "Hi" "Hello" None
    = Mail.message env "a@example.org" "Hi" "Hello" None
  ∧ Mail.port (Mail.transporter id (λ _, 0) (<["MAIL_PORT" := "0"]> env))
    = 0.
Proof.
  intros env.
  apply (mail_reads_only_its_variables id (λ _, 0) env "HOME" "/root" "0"
           "a@example.org" "Hi" "Hello" None).
  - apply (bool_decide_unpack _). vm_compute. exact I.
  - discriminate.
Defined.

(** * The auto-title effect over UTF-16 code units *)

Lemma utf16_slice_take (n : nat) (s : list N) :
  Utf16.slice 0 (Z.of_nat n) s = take n s.
Proof.
  unfold Utf16.slice, slice_index.
  replace (0 <? 0) with false by reflexivity.
  destruct (Z.ltb_spec (Z.of_nat n) 0) as [?|_]; [lia|].
  rewrite (Z.min_l 0) by lia.
  replace (Z.to_nat 0) with 0%nat by reflexivity. rewrite drop_0.
  replace (Z.to_nat ((Z.of_nat n `min` Z.of_nat (length s) - 0) `max` 0))
    with (n `min` length s)%nat by lia.
  destruct (decide (n ≤ length s)%nat) as [Hle|Hgt].
  - by rewrite Nat.min_l.
  - rewrite Nat.min_r by lia. by rewrite !take_ge by lia.
Qed.

Lemma utf16_derive_title_Some msg cur l id t :
  Utf16.derive_title msg cur l = Some (id, t) →
  ∃ m s, msg = Some m ∧ cur = Some id
         ∧ to_boolean m = true ∧ to_boolean id = true
         ∧ Utf16.find_session id l = Some s ∧ Utf16.untitled s = true
         ∧ t = Utf16.slice 0 40 m.
Proof.
  unfold Utf16.derive_title.
  destruct msg as [m|], cur as [c|];
    rewrite ?to_boolean_Some, ?to_boolean_None;
    try (destruct (to_boolean m); discriminate); try discriminate.
  destruct (to_boolean m) eqn:Hm, (to_boolean c) eqn:Hc; simpl;
    try discriminate.
  destruct (Utf16.find_session c l) as [s|] eqn:Hfind; [|discriminate].
  destruct (Utf16.untitled s) eqn:Hs; [|discriminate].
  intros [= <- <-]. exists m, s. auto 10.
Qed.

Lemma utf16_fires_derive msg cur l :
  Utf16.fires msg cur l → ∃ id t, Utf16.derive_title msg cur l = Some (id, t).
Proof.
  unfold Utf16.fires, Utf16.autoTitle.
  destruct (Utf16.derive_title msg cur l) as [[id t]|]; [eauto|].
  intros [H|H]; by destruct H.
Qed.

(** ** The 8-bit writing of strings is an instance *)

Lemma utf16_length_of_string (s : string) :
  length (Utf16.of_string s) = String.length s.
Proof.
  unfold Utf16.of_string. by rewrite length_fmap, length_list_ascii_of_string.
Qed.

Lemma list_ascii_of_substring (n m : nat) (s : string) :
  list_ascii_of_string (String.substring n m s)
  = take m (drop n (list_ascii_of_string s)).
Proof.
  revert n m. induction s as [|c s IH]; intros [|n] [|m]; simpl;
    try reflexivity; try apply IH.
  by rewrite (IH 0%nat m).
Qed.

(** [slice] on 8-bit strings is [slice] on their code units. *)
Lemma utf16_slice_of_string (b e : Z) (s : string) :
  Utf16.of_string (slice b e s) = Utf16.slice b e (Utf16.of_string s).
Proof.
  unfold slice, Utf16.slice. rewrite utf16_length_of_string.
  unfold Utf16.of_string.
  by rewrite list_ascii_of_substring, fmap_take, fmap_drop.
Qed.

Lemma utf16_of_string_inj : Inj (=) (=) Utf16.of_string.
Proof.
  intros s1 s2 H. unfold Utf16.of_string in H.
  rewrite <- (string_of_list_ascii_of_string s1),
          <- (string_of_list_ascii_of_string s2).
  f_equal. revert H.
  generalize (list_ascii_of_string s1) (list_ascii_of_string s2).
  induction l as [|a l IH]; intros [|a' l']; simpl; try discriminate;
    [done|].
  intros [= Ha Hl]. f_equal; [|by apply IH].
  by rewrite <- (ascii_N_embedding a), <- (ascii_N_embedding a'), Ha.
Qed.

Lemma utf16_to_boolean_of_string (s : string) :
  to_boolean (Utf16.of_string s) = to_boolean s.
Proof. by destruct s. Qed.

Lemma utf16_untitled (s : ChatSession) :
  Utf16.untitled (utf16_session s) = untitled s.
Proof.
  unfold Utf16.untitled, untitled. simpl. f_equal.
  - apply bool_decide_ext. destruct (title s) as [t|]; simpl; [|done].
    split; [intros [= H]; f_equal; by apply utf16_of_string_inj
           |by intros [= ->]].
  - f_equal. destruct (title s) as [t|]; [|done].
    apply utf16_to_boolean_of_string.
Qed.

Lemma utf16_find_session cur (l : list ChatSession) :
  Utf16.find_session cur (utf16_session <$> l)
  = utf16_session <$> find_session cur l.
Proof.
  unfold Utf16.find_session, find_session.
  induction l as [|s l IH]; [done|].
  rewrite fmap_cons. cbn [find]. simpl Utf16.session_id.
  by destruct (session_id s =? cur).
Qed.

(** The effect written with 8-bit characters is the effect on code units,
    at the strings whose units are all below 256. *)
Lemma utf16_derive_title msg cur (l : list ChatSession) :
  Utf16.derive_title (Utf16.of_string <$> msg) cur (utf16_session <$> l)
  = (λ '(id, t), (id, Utf16.of_string t)) <$> derive_title msg cur l.
Proof.
  unfold Utf16.derive_title, derive_title.
  destruct msg as [m|], cur as [c|]; simpl fmap at 1;
    rewrite ?to_boolean_Some, ?to_boolean_None, ?utf16_to_boolean_of_string;
    try (destruct (to_boolean m); reflexivity); try reflexivity.
  destruct (negb (to_boolean m) || negb (to_boolean c)); [done|].
  rewrite utf16_find_session.
  destruct (find_session c l) as [s|]; [|done]. simpl.
  rewrite utf16_untitled. destruct (untitled s); [|done]. simpl.
  by rewrite utf16_slice_of_string.
Qed.

(** ** The first 40 code units *)

(** C3, amended. A message is a sequence of UTF-16 code units.  When the
    effect fires for a message longer than 40 code units, the title it
    patches and writes is exactly the first 40 code units of the message:
    the patch carries it, every session with the current id gets it, and
    every other entry of the list is unchanged.  For the message of the
    example the title is "What's the weather tomorrow in Yangon an". *)
Theorem auto_title_first_40_code_units (msg : list N)
    (currentSessionId : option Z) (sessions : list Utf16.ChatSession) :
  (40 < length msg)%nat →
  Utf16.fires (Some msg) currentSessionId sessions →
  let newTitle := take 40 msg in
  let result := Utf16.autoTitle (Some msg) currentSessionId sessions in
  length newTitle = 40%nat
  ∧ (msg = Utf16.of_string weather →
     newTitle = Utf16.of_string "What's the weather tomorrow in Yangon an")
  ∧ ∃ id, currentSessionId = Some id
      ∧ result.1 = Some (id, newTitle)
      ∧ ∀ (i : nat) (s : Utf16.ChatSession), sessions !! i = Some s →
          result.2 !! i
          = Some (if bool_decide (Utf16.session_id s = id)
                  then {| Utf16.session_id := Utf16.session_id s;
                          Utf16.title := Some newTitle;
                          Utf16.created_at := Utf16.created_at s |}
                  else s).
Proof.
  intros Hlen Hfires newTitle result.
  split; [unfold newTitle; rewrite length_take; lia|].
  split; [intros ->; reflexivity|].
  destruct (utf16_fires_derive _ _ _ Hfires) as (id & t & Hd).
  destruct (utf16_derive_title_Some _ _ _ _ _ Hd)
    as (m & s0 & [= <-] & -> & _ & _ & _ & _ & ->).
  change 40 with (Z.of_nat 40) in Hd. rewrite utf16_slice_take in Hd.
  exists id. split; [reflexivity|].
  subst result. unfold Utf16.autoTitle. rewrite Hd. simpl.
  split; [reflexivity|].
  intros i s Hi. unfold Utf16.retitle. rewrite list_lookup_fmap, Hi. simpl.
  f_equal. destruct (Z.eqb_spec (Utf16.session_id s) id) as [He|He].
  - by rewrite bool_decide_eq_true_2.
  - by rewrite bool_decide_eq_false_2.
Qed.

Lemma auto_title_first_40_code_units_witness :
  Utf16.autoTitle (Some (Utf16.of_string weather)) (Some 1)
    [Utf16.session1; Utf16.session2]
  = (Some (1, Utf16.of_string "What's the weather tomorrow in Yangon an"),
     [ {| Utf16.session_id := 1;
          Utf16.title :=
            Some (Utf16.of_string "What's the weather tomorrow in Yangon an");
          Utf16.created_at := None |};
       Utf16.session2 ]).
Proof.
  assert (Hlen : (40 < length (Utf16.of_string weather))%nat)
    by (vm_compute; lia).
  assert (Hfires : Utf16.fires (Some (Utf16.of_string weather)) (Some 1)
                     [Utf16.session1; Utf16.session2])
    by (left; vm_compute; discriminate).
  destruct (auto_title_first_40_code_units (Utf16.of_string weather) (Some 1)
              [Utf16.session1; Utf16.session2] Hlen Hfires)
    as (_ & Ht & id & [= <-] & Hpatch & Hs).
  rewrite (Ht eq_refl) in Hpatch, Hs.
  apply injective_projections; [exact Hpatch|].
  apply list_eq. intros [|[|i]].
  - apply (Hs 0%nat Utf16.session1 eq_refl).
  - apply (Hs 1%nat Utf16.session2 eq_refl).
  - reflexivity.
Defined.

(** The title of the example as the specification prints it,
    "What's the weather tomorrow in Yangon a", has 39 code units and is not
    the title the effect derives. *)
Lemma example_title_has_39_code_units :
  length (Utf16.of_string "What's the weather tomorrow in Yangon a") = 39%nat
  ∧ ¬ (∀ msg cur l, (40 < length msg)%nat → Utf16.fires (Some msg) cur l →
         msg = Utf16.of_string weather →
         ∃ id, (Utf16.autoTitle (Some msg) cur l).1
               = Some (id, Utf16.of_string
                             "What's the weather tomorrow in Yangon a")).
Proof.
  split; [reflexivity|].
  intros H.
  destruct (H (Utf16.of_string weather) (Some 1)
              [Utf16.session1; Utf16.session2]) as (id & Hpatch).
  - vm_compute; lia.
  - left. vm_compute. discriminate.
  - reflexivity.
  - vm_compute in Hpatch. discriminate.
Qed.

(** Code units above 255 are cut like any other: 41 units of U+1000 give
    40, and a message of 16 units is kept whole. *)
Example burmese_message_is_cut_by_units :
  Utf16.slice 0 40 (replicate 41 4096%N) = replicate 40 4096%N
  ∧ Utf16.slice 0 40 (replicate 16 4096%N) = replicate 16 4096%N.
Proof. split; reflexivity. Qed.

(** * [handleSelect] and its callback *)





(** * [handleCreate] and the session id of the response *)

(** C7, amended. With a user identity, [handleCreate] posts a creation
    request whose title is "New Chat".  When the request is fulfilled with
    a truthy session id (one that is there and is not 0), it sends a
    session fetch and leaves [sessions] alone until that fetch settles;
    then [sessions] is what the fetch gives, and the callback is called,
    once, with the new session id and no messages.  When the request is
    fulfilled without such an id, [handleCreate] ends there: no fetch is
    sent, the callback is not called, and only [creating] is reset. *)
Theorem createSession_refreshes_then_selects (w : World) (uid : string)
    (o : Outcome SessionsBody) :
  to_boolean uid = true → is_cancel o = false →
  let rid := next_rid w in
  (∀ sid : Z, to_boolean sid = true →
     ∃ w1 w2 w3,
       step (EvCreate (Some uid)) w = Some w1
       ∧ log w1 = (log w ++ [PostSession rid uid "New Chat"])%list
       ∧ step (EvCreated rid (Fulfilled (Some sid))) w1 = Some w2
       ∧ log w2 = (log w1 ++ [GetSessions (S rid) uid])%list
       ∧ sessions (ui w2) = sessions (ui w)
       ∧ step (EvSessions (S rid) o) w2 = Some w3
       ∧ sessions (ui w3) = match o with
                            | Fulfilled (SessionArray l) => l
                            | _ => []
                            end
       ∧ callbacks (log w3) = (callbacks (log w) ++ [(sid, [])])%list)
  ∧ (∀ body : option Z, to_boolean body = false →
       ∃ w1 w2,
         step (EvCreate (Some uid)) w = Some w1
         ∧ step (EvCreated rid (Fulfilled body)) w1 = Some w2
         ∧ log w2 = (log w ++ [PostSession rid uid "New Chat"])%list
         ∧ pending w2 = delete rid (pending w)
         ∧ ui w2 = setCreating false (ui w)).
Proof.
  intros Hu Ho rid. split.
  - intros sid Hs. by apply handleCreate_with_session_id.
  - intros body Hb. eexists _, _. split.
    { simpl. unfold handleCreate. by rewrite to_boolean_Some, Hu. }
    simpl. rewrite lookup_insert_eq. unfold handleCreate_resume.
    rewrite Hb. split; [reflexivity|]. simpl.
    split; [reflexivity|]. split; [apply delete_insert_eq | reflexivity].
Qed.

Lemma createSession_refreshes_then_selects_witness :
  ∃ w1 w2 w3,
    step (EvCreate (Some "u1")) loaded = Some w1
    ∧ log w1 = [PostSession 0 "u1" "New Chat"]
    ∧ step (EvCreated 0 (Fulfilled (Some 7))) w1 = Some w2
    ∧ log w2 = (log w1 ++ [GetSessions 1 "u1"])%list
    ∧ sessions (ui w2) = [session1; session2]
    ∧ step (EvSessions 1 (Fulfilled (SessionArray [session2]))) w2 = Some w3
    ∧ sessions (ui w3) = [session2]
    ∧ callbacks (log w3) = [(7, [])].
Proof.
  apply (createSession_refreshes_then_selects loaded "u1"
           (Fulfilled (SessionArray [session2]))); reflexivity.
Defined.

(** A fulfilled creation request whose response carries the session id 0,
    or none, is followed by no refresh and no call of the callback. *)
Lemma creation_without_session_id_stops :
  ¬ refreshes_on_every_success
  ∧ (∀ body : option Z, body = Some 0 ∨ body = None →
       ∃ w',
         run [EvCreate (Some "u1"); EvCreated 0 (Fulfilled body)] loaded
         = Some w'
         ∧ log w' = [PostSession 0 "u1" "New Chat"]
         ∧ callbacks (log w') = []
         ∧ pending w' = ∅).
Proof.
  split.
  - intros H. destruct (H loaded "u1" 0 eq_refl) as (w1 & w2 & r & H1 & H2 & Hlog).
    injection H1 as <-. vm_compute in H2. injection H2 as <-.
    vm_compute in Hlog. discriminate.
  - intros body [-> | ->]; eexists; (split; [reflexivity|]);
      repeat split; try reflexivity; apply map_eq; intros i; vm_compute;
      by destruct i.
Qed.
